(** * goexec: a shallow embedding of the subprocess execution task

    The development follows the two Go sources of the package:
    the core ([ExecTask], [ExecResult], [ExecTask.Execute]) and the
    script helper ([ShellScriptOption], [ExecuteShellScript]).

    Go strings are byte strings and are modelled by [string]; byte
    slices written by the child are [list byte].  The operating system,
    the clock, the ambient environment and the child process are
    gathered in a record [World] that [Execute] reads; everything
    [Execute] does to the outside is returned in an [Outcome]. *)

From Stdlib Require Import ZArith.
From Stdlib.Strings Require Import Ascii String Byte.
From stdpp Require Import base option list strings gmap.

Open Scope string_scope.
Open Scope list_scope.
Open Scope nat_scope.

(** ** The pieces of Go's standard library the package calls *)

Module GoStrings.

(** [strings.Split(s, sep)] for a separator of one byte, which is how
    the package calls it (with [" "] and with ["="]).  The result is
    never empty: a string without the separator is returned whole. *)
Fixpoint Split (s : string) (sep : ascii) : list string :=
  match s with
  | EmptyString => [EmptyString]
  | String c rest =>
      if Ascii.eqb c sep then EmptyString :: Split rest sep
      else match Split rest sep with
           | [] => [String c EmptyString]
           | field :: fields => String c field :: fields
           end
  end.

(** [strings.Join(elems, sep)]. *)
Fixpoint Join (elems : list string) (sep : string) : string :=
  match elems with
  | [] => EmptyString
  | [e] => e
  | e :: rest => e +:+ sep +:+ Join rest sep
  end.

End GoStrings.

(** Go's [error] values that can flow through the package. *)
Inductive error : Type :=
  | Canceled                       (* context.Canceled *)
  | DeadlineExceeded               (* context.DeadlineExceeded *)
  | ErrShortWrite                  (* io.ErrShortWrite *)
  | Errorf (msg : string).         (* any other error, by its message *)

#[global] Instance error_eq_dec : EqDecision error.
Proof. solve_decision. Defined.

(** *** io.Writer

    A writer keeps what it has accepted so far.  [w_room = None] is a
    writer that never fails (a [bytes.Buffer]); [w_room = Some k] is one
    that accepts [k] more bytes and then fails (a full disk, a closed
    file or pipe when [k = 0]). *)
Record Writer : Type := mkWriter {
  w_data : list byte;
  w_room : option nat
}.

(** [w.Write(p)] returns the writer after the call, the count [n] of
    bytes accepted and the error. *)
Definition Write (w : Writer) (p : list byte) : Writer * nat * option error :=
  match w_room w with
  | None => (mkWriter (w_data w ++ p) None, length p, None)
  | Some k =>
      if length p <=? k
      then (mkWriter (w_data w ++ p) (Some (k - length p)), length p, None)
      else (mkWriter (w_data w ++ take k p) (Some 0), k, Some (Errorf "write failed"))
  end.

(** The zero [bytes.Buffer]. *)
Definition emptyBuffer : Writer := mkWriter [] None.

(** [buf.String()]. *)
Definition Buffer_String (b : Writer) : string := string_of_list_byte (w_data b).

(** The four kinds of destination a stream can be routed to. *)
Inductive DestKind : Type := DFile | DBuffer | DStdio | DSink.

#[global] Instance DestKind_eq_dec : EqDecision DestKind.
Proof. solve_decision. Defined.

Record Dest : Type := mkDest {
  d_kind : DestKind;
  d_writer : Writer
}.

(** [io.MultiWriter(ws...).Write(p)]: the writers are written in
    sequence, and the first error or short write ends the call. *)
Fixpoint multiWrite (ws : list Dest) (p : list byte) : list Dest * nat * option error :=
  match ws with
  | [] => ([], length p, None)
  | d :: rest =>
      let '(w', n, err) := Write (d_writer d) p in
      let d' := mkDest (d_kind d) w' in
      match err with
      | Some e => (d' :: rest, n, Some e)
      | None =>
          if n =? length p
          then let '(rest', n', err') := multiWrite rest p in (d' :: rest', n', err')
          else (d' :: rest, n, Some ErrShortWrite)
      end
  end.

(** The copying goroutine [io.Copy(w, pipe)] that os/exec runs for a
    stream whose destination is not an [*os.File]: every chunk read
    from the pipe is written to the destination, and a write error
    ends the copy. *)
Fixpoint copyStream (ws : list Dest) (chunks : list (list byte)) : list Dest * option error :=
  match chunks with
  | [] => (ws, None)
  | p :: rest =>
      let '(ws', n, err) := multiWrite ws p in
      match err with
      | Some e => (ws', Some e)
      | None => if n =? length p then copyStream ws' rest else (ws', Some ErrShortWrite)
      end
  end.

(** *** context.Context

    A context is described by the instant at which it becomes done and
    the error [ctx.Err()] reports from then on; [None] is a context that
    is never done ([context.Background()]). *)
Inductive Cause : Type := CauseCanceled | CauseDeadline.

Definition Cause_error (c : Cause) : error :=
  match c with CauseCanceled => Canceled | CauseDeadline => DeadlineExceeded end.

Definition Context : Type := option (nat * Cause).

(** [ctx.Err()] read at instant [t]. *)
Definition ctx_Err (ctx : Context) (t : nat) : option error :=
  match ctx with
  | Some (te, c) => if te <=? t then Some (Cause_error c) else None
  | None => None
  end.

(** [context.WithTimeout(parent, d)] called at instant [now]: the
    parent governs when it is done before the new deadline, the timer
    otherwise. *)
Definition WithTimeout (parent : Context) (now : nat) (d : Z) : Context :=
  let deadline := now + Z.to_nat d in
  match parent with
  | Some (te, c) => if te <? deadline then Some (te, c) else Some (deadline, CauseDeadline)
  | None => Some (deadline, CauseDeadline)
  end.

(** ** The data model of the package *)

Record ExecTask : Type := mkExecTask {
  Command : string;
  Args : list string;
  Shell : bool;
  Env : list string;
  Cwd : string;
  Stdin : option (list byte);
  PrintCommand : bool;
  StreamStdio : bool;
  DisableStdioBuffer : bool;
  StdOutWriter : option Writer;
  StdErrWriter : option Writer;
  Timeout : Z;
  OutputFile : option Writer;
  ErrorFile : option Writer
}.

Record ExecResult : Type := mkExecResult {
  Stdout : string;
  Stderr : string;
  ExitCode : Z;
  Timedout : bool;
  Cancelled : bool;
  Duration : Z
}.

(** The zero values [ExecTask{}] and [ExecResult{}]. *)
Definition zeroTask : ExecTask :=
  mkExecTask "" [] false [] "" None false false false None None 0 None None.

Definition zeroResult : ExecResult := mkExecResult "" "" 0 false false 0.

(** ** The script helper's options *)

Definition ShellScriptOption : Type := ExecTask → ExecTask.

Definition set_Env (v : list string) (et : ExecTask) : ExecTask :=
  mkExecTask (Command et) (Args et) (Shell et) v (Cwd et) (Stdin et)
    (PrintCommand et) (StreamStdio et) (DisableStdioBuffer et)
    (StdOutWriter et) (StdErrWriter et) (Timeout et) (OutputFile et) (ErrorFile et).

Definition set_Command (v : string) (et : ExecTask) : ExecTask :=
  mkExecTask v (Args et) (Shell et) (Env et) (Cwd et) (Stdin et)
    (PrintCommand et) (StreamStdio et) (DisableStdioBuffer et)
    (StdOutWriter et) (StdErrWriter et) (Timeout et) (OutputFile et) (ErrorFile et).

Definition set_Shell (v : bool) (et : ExecTask) : ExecTask :=
  mkExecTask (Command et) (Args et) v (Env et) (Cwd et) (Stdin et)
    (PrintCommand et) (StreamStdio et) (DisableStdioBuffer et)
    (StdOutWriter et) (StdErrWriter et) (Timeout et) (OutputFile et) (ErrorFile et).

Definition set_Cwd (v : string) (et : ExecTask) : ExecTask :=
  mkExecTask (Command et) (Args et) (Shell et) (Env et) v (Stdin et)
    (PrintCommand et) (StreamStdio et) (DisableStdioBuffer et)
    (StdOutWriter et) (StdErrWriter et) (Timeout et) (OutputFile et) (ErrorFile et).

Definition set_Args (v : list string) (et : ExecTask) : ExecTask :=
  mkExecTask (Command et) v (Shell et) (Env et) (Cwd et) (Stdin et)
    (PrintCommand et) (StreamStdio et) (DisableStdioBuffer et)
    (StdOutWriter et) (StdErrWriter et) (Timeout et) (OutputFile et) (ErrorFile et).

Definition set_OutputFile (v : option Writer) (et : ExecTask) : ExecTask :=
  mkExecTask (Command et) (Args et) (Shell et) (Env et) (Cwd et) (Stdin et)
    (PrintCommand et) (StreamStdio et) (DisableStdioBuffer et)
    (StdOutWriter et) (StdErrWriter et) (Timeout et) v (ErrorFile et).

Definition set_ErrorFile (v : option Writer) (et : ExecTask) : ExecTask :=
  mkExecTask (Command et) (Args et) (Shell et) (Env et) (Cwd et) (Stdin et)
    (PrintCommand et) (StreamStdio et) (DisableStdioBuffer et)
    (StdOutWriter et) (StdErrWriter et) (Timeout et) (OutputFile et) v.

Definition WithEnv (env : list string) : ShellScriptOption :=
  fun et => set_Env env et.

Definition WithShell (shell : string) : ShellScriptOption :=
  fun et =>
    if negb (String.eqb shell "")
    then set_Shell true (set_Command shell et)
    else et.

Definition WithCwd (cwd : string) : ShellScriptOption :=
  fun et => set_Cwd cwd et.

Definition WithArgs (args : list string) : ShellScriptOption :=
  fun et => set_Args (Args et ++ args) et.

Definition WithOutputFiles (stdout stderr : option Writer) : ShellScriptOption :=
  fun et => set_ErrorFile stderr (set_OutputFile stdout et).

(** ** The outside world of one call *)

(** How a process ended, as [os.ProcessState] reports it. *)
Inductive WaitStatus : Type :=
  | Exited (code : Z)
  | Signaled (sig : nat).

Definition SIGKILL : nat := 9.

(** [state.Success()] and [state.ExitCode()]: a process that was ended
    by a signal has exit code [-1]. *)
Definition Success (st : WaitStatus) : bool :=
  match st with Exited 0 => true | _ => false end.

Definition ProcessState_ExitCode (st : WaitStatus) : Z :=
  match st with Exited c => c | Signaled _ => (-1)%Z end.

(** The child on its own: when and how it ends if nobody ends it
    ([None]: it runs for ever), counted from its start, and the chunks
    it writes to each stream while it lives. *)
Record Child : Type := mkChild {
  c_exit : option (nat * WaitStatus);
  c_stdout : list (list byte);
  c_stderr : list (list byte)
}.

Inductive StatResult : Type := StatOk | StatErrNotExist | StatErrOther.

Record World : Type := mkWorld {
  w_now : nat;                        (* the instant of the call *)
  w_lag1 : nat;                       (* between the last reads of ctx.Err() *)
  w_lag2 : nat;
  w_environ : list string;            (* os.Environ() *)
  w_lookpath : string → bool;         (* does exec.LookPath find the name *)
  w_stat : string → StatResult;       (* os.Stat *)
  w_start_err : option error;         (* the error of cmd.Start(), if any *)
  w_child : Child;
  w_stdout : Writer;                  (* os.Stdout *)
  w_stderr : Writer                   (* os.Stderr *)
}.

(** The fields of [exec.Cmd] the package sets. *)
Record Cmd : Type := mkCmd {
  cmd_Path : string;
  cmd_Args : list string;             (* argv, the program name first *)
  cmd_Dir : string;
  cmd_Env : option (list string);     (* [None] is Go's nil: inherit *)
  cmd_Stdin : option (list byte)
}.

(** What a call does besides returning.  The destinations of the two
    streams are taken to be distinct writers, as the package's own
    buffers and the process's standard output and error are; each
    stream is copied by its own goroutine and the order of bytes across
    the two streams is not recorded. *)
Inductive Event : Type :=
  | EvExecute (et : ExecTask)         (* the core was entered *)
  | EvPrint (line : string)           (* written by fmt.Println *)
  | EvStart (c : Cmd)                 (* cmd.Start() was called *)
  | EvKill.                           (* the child was killed *)

Record Outcome : Type := mkOutcome {
  o_ret : option (ExecResult * option error);  (* [None]: the call never returns *)
  o_trace : list Event;
  o_stdout : list Dest;               (* the destinations of stdout after the call *)
  o_stderr : list Dest;
  o_stdout_err : option error;        (* the error of each copying goroutine *)
  o_stderr_err : option error
}.

(** ** Command Builder (lines 102-142 of Execute) *)

(** [fmt.Sprintf("%s %s", a, b)]. *)
Definition Sprintf_s_s (a b : string) : string := a +:+ " " +:+ b.

(** The interpreter of shell mode: ["sh"] when [exec.LookPath] finds
    it, the fixed path otherwise. *)
Definition resolveShell (w : World) : string :=
  let command := "sh" in
  if negb (w_lookpath w command) then "/usr/bin/sh" else command.

Definition buildCommand (w : World) (et : ExecTask) : string * list string :=
  if Shell et then
    let command := resolveShell w in
    if length (Args et) =? 0 then
      let startArgs := GoStrings.Split (Command et) " " in
      let script := GoStrings.Join startArgs " " in
      (command, ["-c"; script])
    else
      let script := GoStrings.Join (Args et) " " in
      (command, ["-c"; Sprintf_s_s (Command et) script])
  else
    (Command et, Args et).

(** [exec.CommandContext(ctx, name, arg...)]: argv is the name followed
    by the arguments. *)
Definition CommandContext (name : string) (arg : list string) : Cmd :=
  mkCmd name (name :: arg) "" None None.

(** ** Environment Resolver (lines 145-160 of Execute) *)

(** [strings.Split(env, "=")[0]]. *)
Definition envKey (env : string) : string :=
  default "" (head (GoStrings.Split env "=")).

(** [append(cmd.Env, env)] on a slice that may be nil. *)
Definition appendEnv (cenv : option (list string)) (env : string) : option (list string) :=
  Some (default [] cenv ++ [env]).

Definition overrideLoop (etEnv : list string)
    (st : gmap string bool * option (list string)) : gmap string bool * option (list string) :=
  foldl (fun '(overrides, cenv) env =>
           let key := envKey env in
           (<[key := true]> overrides, appendEnv cenv env))
        st etEnv.

Definition ambientLoop (overrides : gmap string bool) (environ : list string)
    (cenv : option (list string)) : option (list string) :=
  foldl (fun cenv env =>
           let key := envKey env in
           match overrides !! key with
           | Some _ => cenv
           | None => appendEnv cenv env
           end)
        cenv environ.

Definition resolveEnv (w : World) (et : ExecTask) (cenv : option (list string)) : option (list string) :=
  if 0 <? length (Env et) then
    let '(overrides, cenv) := overrideLoop (Env et) (∅, cenv) in
    ambientLoop overrides (w_environ w) cenv
  else cenv.

Definition buildCmd (w : World) (et : ExecTask) : Cmd :=
  let '(command, commandArgs) := buildCommand w et in
  let cmd := CommandContext command commandArgs in
  let cmd := mkCmd (cmd_Path cmd) (cmd_Args cmd) (Cwd et) (cmd_Env cmd) (cmd_Stdin cmd) in
  let cmd := mkCmd (cmd_Path cmd) (cmd_Args cmd) (cmd_Dir cmd) (resolveEnv w et (cmd_Env cmd)) (cmd_Stdin cmd) in
  match Stdin et with
  | Some r => mkCmd (cmd_Path cmd) (cmd_Args cmd) (cmd_Dir cmd) (cmd_Env cmd) (Some r)
  | None => cmd
  end.

(** ** Output Fan-Out (lines 165-197 of Execute) *)

Definition optDest (k : DestKind) (o : option Writer) : list Dest :=
  match o with Some f => [mkDest k f] | None => [] end.

Definition stdoutWriters (w : World) (et : ExecTask) : list Dest :=
  let ws := [] in
  let ws := ws ++ optDest DFile (OutputFile et) in
  let ws := if negb (DisableStdioBuffer et) then ws ++ [mkDest DBuffer emptyBuffer] else ws in
  let ws := if StreamStdio et then ws ++ [mkDest DStdio (w_stdout w)] else ws in
  ws ++ optDest DSink (StdOutWriter et).

Definition stderrWriters (w : World) (et : ExecTask) : list Dest :=
  let ws := [] in
  let ws := ws ++ optDest DFile (ErrorFile et) in
  let ws := if negb (DisableStdioBuffer et) then ws ++ [mkDest DBuffer emptyBuffer] else ws in
  let ws := if StreamStdio et then ws ++ [mkDest DStdio (w_stderr w)] else ws in
  ws ++ optDest DSink (StdErrWriter et).

(** The writer of a given kind among the destinations of a stream. *)
Definition destOf (k : DestKind) (ds : list Dest) : option Writer :=
  d_writer <$> List.find (fun d => bool_decide (d_kind d = k)) ds.

(** The local [bytes.Buffer] of a stream after the call: the one among
    the destinations if it was added, the untouched zero buffer
    otherwise. *)
Definition bufferOf (ds : list Dest) : Writer := default emptyBuffer (destOf DBuffer ds).

(** ** Process Runner *)

(** os/exec's contract for a command made by [exec.CommandContext] and
    started at instant [start]: the child ends on its own when it does
    so no later than the context is done; otherwise it is killed at the
    instant the context is done; with neither it is waited on for ever.
    The result is the instant [cmd.Wait()] returns, the state of the
    process and whether it was killed. *)
Definition processEnd (ctx : Context) (start : nat) (ch : Child) : option (nat * WaitStatus * bool) :=
  match c_exit ch, ctx with
  | Some (off, st), Some (te, _) =>
      if start + off <=? te then Some (start + off, st, false)
      else Some (te, Signaled SIGKILL, true)
  | Some (off, st), None => Some (start + off, st, false)
  | None, Some (te, _) => Some (te, Signaled SIGKILL, true)
  | None, None => None
  end.

(** The error of [cmd.Wait()]: an [*exec.ExitError] for a process that
    did not succeed, else the error of a copying goroutine, else nil. *)
Inductive WaitError : Type :=
  | WaitExitError (st : WaitStatus)
  | WaitOther (e : error).

Definition Wait (st : WaitStatus) (outErr errErr : option error) : option WaitError :=
  if Success st then
    match outErr with
    | Some e => Some (WaitOther e)
    | None => WaitOther <$> errErr
    end
  else Some (WaitExitError st).

Definition newline : string := String (ascii_of_nat 10) EmptyString.

(** [fmt.Println(a, b, c)]: the operands separated by spaces, then a
    newline. *)
Definition Println3 (a b c : string) : string :=
  a +:+ " " +:+ b +:+ " " +:+ c +:+ newline.

(** [func (et ExecTask) Execute(ctx context.Context) (ExecResult, error)].
    The set-up up to [cmd.Start()] takes place at the instant [w_now];
    the three reads of [ctx.Err()] in the final return have their own
    instants.  [deadlineCtx] is the context after lines 78-83. *)
Definition deadlineCtx (w : World) (et : ExecTask) (ctx : Context) : Context :=
  if (0 <? Timeout et)%Z then WithTimeout ctx (w_now w) (Timeout et) else ctx.

Definition Execute (w : World) (et : ExecTask) (ctx : Context) : Outcome :=
  let ctx := deadlineCtx w et ctx in
  let argsSt := "" in
  let argsSt := if 0 <? length (Args et) then GoStrings.Join (Args et) " " else argsSt in
  let tr := [EvExecute et] in
  let tr := if PrintCommand et then tr ++ [EvPrint (Println3 "exec: " (Command et) argsSt)] else tr in
  match ctx_Err ctx (w_now w) with
  | Some e =>
      mkOutcome
        (Some (mkExecResult "" "" (-1) false (bool_decide (e = Canceled)) 0, Some e))
        tr [] [] None None
  | None =>
      let cmd := buildCmd w et in
      let stdoutWriters := stdoutWriters w et in
      let stderrWriters := stderrWriters w et in
      let execStart := w_now w in
      let tr := tr ++ [EvStart cmd] in
      match w_start_err w with
      | Some startErr =>
          mkOutcome (Some (zeroResult, Some startErr)) tr stdoutWriters stderrWriters None None
      | None =>
          let '(outs, outErr) := copyStream stdoutWriters (c_stdout (w_child w)) in
          let '(errs, errErr) := copyStream stderrWriters (c_stderr (w_child w)) in
          match processEnd ctx execStart (w_child w) with
          | None => mkOutcome None tr outs errs outErr errErr
          | Some (execEnd, st, killed) =>
              let tr := if killed : bool then tr ++ [EvKill] else tr in
              let exitCode := 0%Z in
              let execErr := Wait st outErr errErr in
              let exitCode :=
                match execErr with
                | Some (WaitExitError st') => ProcessState_ExitCode st'
                | _ => exitCode
                end in
              let r1 := execEnd in
              let r2 := r1 + w_lag1 w in
              let r3 := r2 + w_lag2 w in
              mkOutcome
                (Some (mkExecResult
                         (Buffer_String (bufferOf outs))
                         (Buffer_String (bufferOf errs))
                         exitCode
                         (bool_decide (ctx_Err ctx r1 = Some DeadlineExceeded))
                         (bool_decide (ctx_Err ctx r2 = Some Canceled))
                         (Z.of_nat (execEnd - execStart)),
                       ctx_Err ctx r3))
                tr outs errs outErr errErr
          end
      end
  end.

(** ** The script helper *)

(** The default task of the helper. *)
Definition scriptTask (scriptPath : string) : ExecTask :=
  mkExecTask "sh" [scriptPath] true [] "" None false false false None None 0 None None.

(** [for _, opt := range opts { opt(&execTask) }]. *)
Definition applyOptions (opts : list ShellScriptOption) (execTask : ExecTask) : ExecTask :=
  foldl (fun et (opt : ShellScriptOption) => opt et) execTask opts.

Definition ExecuteShellScript (w : World) (ctx : Context) (scriptPath : string)
    (opts : list ShellScriptOption) : Outcome :=
  match w_stat w scriptPath with
  | StatErrNotExist =>
      mkOutcome (Some (zeroResult, Some (Errorf ("script not found: " +:+ scriptPath))))
        [] [] [] None None
  | _ =>
      let execTask := scriptTask scriptPath in
      let execTask := applyOptions opts execTask in
      Execute w execTask ctx
  end.

(** ** Vocabulary of the statements *)

(** The keys named by a list of [KEY=VALUE] entries. *)
Definition envKeys (entries : list string) : list string := envKey <$> entries.

(** The variables of the ambient environment that no override names. *)
Definition inherited (overrides environ : list string) : list string :=
  filter (fun env => envKey env ∉ envKeys overrides) environ.

(** The child process was created: the context was still live at the
    check of line 94 and [cmd.Start()] returned no error. *)
Definition started (w : World) (et : ExecTask) (ctx : Context) : Prop :=
  ctx_Err (deadlineCtx w et ctx) (w_now w) = None ∧ w_start_err w = None.

(** All the bytes a stream carries, in order. *)
Definition streamBytes (chunks : list (list byte)) : list byte := concat chunks.

(** A destination after the call holds what it held before followed by
    [got]. *)
Definition received (got : list byte) (before after : Dest) : Prop :=
  d_kind after = d_kind before
  ∧ w_data (d_writer after) = w_data (d_writer before) ++ got.

(** A destination after the call holds what it held before followed by
    some first part of [stream]. *)
Definition receivedPrefix (stream : list byte) (before after : Dest) : Prop :=
  ∃ got, got `prefix_of` stream ∧ received got before after.



(** Disabled buffering as the specification words it: the result
    carries no text, and once the child runs a caller's sink holds the
    whole of its stream. *)
Definition unbufferedSinkComplete (w : World) (et : ExecTask) (ctx : Context) : Prop :=
  DisableStdioBuffer et = true →
  (∀ r err, o_ret (Execute w et ctx) = Some (r, err) → Stdout r = "" ∧ Stderr r = "")
  ∧ (started w et ctx →
     (∀ sink, StdOutWriter et = Some sink →
        ∃ sink', destOf DSink (o_stdout (Execute w et ctx)) = Some sink'
                 ∧ w_data sink' = w_data sink ++ streamBytes (c_stdout (w_child w)))
     ∧ (∀ sink, StdErrWriter et = Some sink →
        ∃ sink', destOf DSink (o_stderr (Execute w et ctx)) = Some sink'
                 ∧ w_data sink' = w_data sink ++ streamBytes (c_stderr (w_child w)))).

(** ** Sample worlds and tasks *)

Module Sample.

Definition hello : list byte := list_byte_of_string "hello".

(** A child that prints [hello] on stdout and exits with status 0
    after 5 ticks. *)
Definition echoChild : Child := mkChild (Some (5, Exited 0)) [hello] [].

(** A child that sleeps for 1000 ticks. *)
Definition sleepChild : Child := mkChild (Some (1000, Exited 0)) [] [].

Definition world (ch : Child) : World :=
  mkWorld 100 1 1 ["PATH=/bin"; "HOME=/root"; "FOO=ambient"]
    (fun _ => true)
    (fun path => if String.eqb path "/tmp/script.sh" then StatOk else StatErrNotExist)
    None ch (mkWriter [] None) (mkWriter [] None).

Definition closedFile : Writer := mkWriter [] (Some 0).
Definition sink : Writer := mkWriter [] None.

Definition echoTask : ExecTask :=
  mkExecTask "echo" ["hello"] false [] "" None false false false None None 0 None None.

(** Direct mode with spaces in the command and in an argument. *)
Definition spacesTask : ExecTask :=
  mkExecTask "/opt/my tools/run" ["my file.txt"; "b"] false [] "" None
    false false false None None 0 None None.

Definition shellArgsTask : ExecTask :=
  mkExecTask "sh" ["/tmp/script.sh"; "a"] true [] "" None
    false false false None None 0 None None.

Definition shellLineTask : ExecTask :=
  mkExecTask "ls  -l | wc" [] true [] "" None
    false false false None None 0 None None.

Definition envTask : ExecTask :=
  mkExecTask "env" [] false ["FOO=override"; "BAR=1"] "" None
    false false false None None 0 None None.


(** Unbuffered, with a closed raw output file and a caller's sink. *)
Definition unbufferedClosedFileTask : ExecTask :=
  mkExecTask "echo" ["hello"] false [] "" None false false true (Some sink) None 0
    (Some closedFile) None.

(** Unbuffered with a caller's sink only. *)
Definition unbufferedTask : ExecTask :=
  mkExecTask "echo" ["hello"] false [] "" None false false true (Some sink) None 0
    None None.

(** A sleep under a timeout of 10 ticks. *)
Definition timeoutTask : ExecTask :=
  mkExecTask "sleep" ["1000"] false [] "" None false false false None None 10 None None.

(** Contexts relative to the call at instant 100. *)
Definition background : Context := None.
Definition cancelledBefore : Context := Some (50, CauseCanceled).
Definition deadlinePassed : Context := Some (50, CauseDeadline).

End Sample.

(** ** Vocabulary of the further properties *)

(** The options the package itself provides. *)
Inductive helperOption : ShellScriptOption → Prop :=
  | helper_WithEnv (env : list string) : helperOption (WithEnv env)
  | helper_WithShell (shell : string) : helperOption (WithShell shell)
  | helper_WithCwd (cwd : string) : helperOption (WithCwd cwd)
  | helper_WithArgs (args : list string) : helperOption (WithArgs args)
  | helper_WithOutputFiles (stdout stderr : option Writer) :
      helperOption (WithOutputFiles stdout stderr).

(** An option that leaves the override environment alone. *)
Definition keepsEnv (opt : ShellScriptOption) : Prop := ∀ et, Env (opt et) = Env et.


(** What a destination took during the call: its content after, less
    what it held before. *)
Definition gotBy (before after : Dest) : list byte :=
  drop (length (w_data (d_writer before))) (w_data (d_writer after)).

(** A variable name: a string without ["="]. *)
Fixpoint isName (s : string) : bool :=
  match s with
  | EmptyString => true
  | String c rest => negb (Ascii.eqb c "=") && isName rest
  end.

(** The entry [KEY=VALUE]. *)
Definition entry (key value : string) : string := key +:+ "=" +:+ value.

(** What every package option keeps of a task that started as the
    helper's default for [scriptPath]: shell mode, a non-empty
    interpreter, the script path as first argument, and the fields no
    option sets. *)
Definition helperTaskOf (scriptPath : string) (et : ExecTask) : Prop :=
  Shell et = true
  ∧ Command et ≠ ""
  ∧ (∃ extra, Args et = scriptPath :: extra)
  ∧ Timeout et = 0%Z
  ∧ PrintCommand et = false
  ∧ StreamStdio et = false
  ∧ DisableStdioBuffer et = false
  ∧ Stdin et = None
  ∧ StdOutWriter et = None
  ∧ StdErrWriter et = None.

(** The fan-out keeps its order: of two destinations of a stream, the
    later one never took more of the stream than the earlier one. *)
Definition fanoutOrdered (before after : list Dest) : Prop :=
  ∀ i j di dj di' dj',
    i ≤ j →
    before !! i = Some di → before !! j = Some dj →
    after !! i = Some di' → after !! j = Some dj' →
    gotBy dj dj' `prefix_of` gotBy di di'.

(** * Properties *)

(** ** Splitting and joining *)

Section SplitJoin.
Import GoStrings.

Lemma Split_nonempty (s : string) (sep : ascii) : Split s sep ≠ [].
Proof.
  destruct s as [|c rest]; simpl; [discriminate|].
  destruct (Ascii.eqb c sep); [discriminate|].
  destruct (Split rest sep); discriminate.
Qed.

Lemma Join_cons_char (c : ascii) (field : string) (fields : list string) (sep : string) :
  Join (String c field :: fields) sep = String c (Join (field :: fields) sep).
Proof. destruct fields; reflexivity. Qed.

Lemma Join_empty_head (e : string) (rest : list string) (sep : string) :
  Join (EmptyString :: e :: rest) sep = sep +:+ Join (e :: rest) sep.
Proof. reflexivity. Qed.

(** Joining what was split on a byte with that byte gives the string
    back, whatever the runs of separators in it. *)
Lemma Join_Split (s : string) (sep : ascii) :
  Join (Split s sep) (String sep EmptyString) = s.
Proof.
  induction s as [|c rest IH]; [reflexivity|].
  simpl Split. destruct (Ascii.eqb_spec c sep) as [->|Hne].
  - pose proof (Split_nonempty rest sep) as Hn.
    destruct (Split rest sep) as [|e fields]; [done|].
    rewrite Join_empty_head, IH. reflexivity.
  - pose proof (Split_nonempty rest sep) as Hn.
    destruct (Split rest sep) as [|e fields]; [done|].
    rewrite Join_cons_char, IH. reflexivity.
Qed.

(** The key of an entry is the entry up to its first ["="]. *)
Lemma envKey_cons (c : ascii) (rest : string) :
  envKey (String c rest) = if Ascii.eqb c "=" then "" else String c (envKey rest).
Proof.
  unfold envKey. simpl Split. destruct (Ascii.eqb c "="); [reflexivity|].
  pose proof (Split_nonempty rest "=") as Hn.
  destruct (Split rest "="); [done|reflexivity].
Qed.

End SplitJoin.

Example Split_runs : GoStrings.Split "a  b " " " = ["a"; ""; "b"; ""].
Proof. reflexivity. Qed.

Example envKey_pair : envKey "GREETING=Hello, Custom World!" = "GREETING".
Proof. reflexivity. Qed.

Example envKey_bare : envKey "NOEQUALS" = "NOEQUALS".
Proof. reflexivity. Qed.

(** ** Environment Resolver *)

Section Environment.

Lemma overrideLoop_cons (env : string) (rest : list string)
    (overrides : gmap string bool) (cenv : option (list string)) :
  overrideLoop (env :: rest) (overrides, cenv)
  = overrideLoop rest (<[envKey env := true]> overrides, appendEnv cenv env).
Proof. reflexivity. Qed.

Lemma overrideLoop_spec (entries : list string) :
  ∀ (overrides : gmap string bool) (cenv : option (list string)),
    ∃ overrides',
      overrideLoop entries (overrides, cenv)
      = (overrides',
         match entries with [] => cenv | _ => Some (default [] cenv ++ entries) end)
      ∧ ∀ key, is_Some (overrides' !! key)
               ↔ is_Some (overrides !! key) ∨ key ∈ envKeys entries.
Proof.
  induction entries as [|env rest IH]; intros overrides cenv.
  - exists overrides. split; [reflexivity|].
    intros key. unfold envKeys. simpl. rewrite elem_of_nil. tauto.
  - rewrite overrideLoop_cons.
    destruct (IH (<[envKey env := true]> overrides) (appendEnv cenv env))
      as (overrides' & Heq & Hkeys).
    exists overrides'. split.
    + rewrite Heq. f_equal. unfold appendEnv. simpl.
      destruct rest; simpl; [reflexivity|].
      by rewrite <- app_assoc.
    + intros key. rewrite Hkeys. unfold envKeys. rewrite fmap_cons, elem_of_cons.
      destruct (decide (envKey env = key)) as [->|Hne].
      * rewrite lookup_insert_eq. split; [intros _|intros _; left; eauto].
        right. by left.
      * rewrite lookup_insert_ne by done. split; [tauto|].
        intros [H|[H|H]]; [by left|by subst|by right].
Qed.

Lemma ambientLoop_cons (overrides : gmap string bool) (env : string)
    (environ : list string) (cenv : option (list string)) :
  ambientLoop overrides (env :: environ) cenv
  = ambientLoop overrides environ
      (match overrides !! envKey env with
       | Some _ => cenv
       | None => appendEnv cenv env
       end).
Proof. reflexivity. Qed.

Lemma ambientLoop_spec (overrides : gmap string bool) (keys environ : list string) :
  (∀ key, is_Some (overrides !! key) ↔ key ∈ keys) →
  ∀ acc : list string,
    ambientLoop overrides environ (Some acc)
    = Some (acc ++ filter (fun env => envKey env ∉ keys) environ).
Proof.
  intros Hkeys. induction environ as [|env environ IH]; intros acc.
  - simpl. by rewrite app_nil_r.
  - rewrite ambientLoop_cons.
    destruct (overrides !! envKey env) as [b|] eqn:Hov.
    + rewrite filter_cons_False; [apply IH|].
      intros Hnot. apply Hnot, Hkeys. eauto.
    + rewrite filter_cons_True.
      * unfold appendEnv. simpl. rewrite IH. by rewrite <- app_assoc.
      * intros Hin. apply Hkeys in Hin. rewrite Hov in Hin. by destruct Hin.
Qed.

(** With overrides, the list starts from nil and ends as the
    overrides followed by what is inherited. *)
Lemma resolveEnv_overrides (w : World) (et : ExecTask) :
  Env et ≠ [] →
  resolveEnv w et None = Some (Env et ++ inherited (Env et) (w_environ w)).
Proof.
  intros Hne. unfold resolveEnv.
  destruct (Env et) as [|env rest] eqn:HEnv; [done|].
  change (0 <? length (env :: rest)) with true. cbv iota.
  destruct (overrideLoop_spec (env :: rest) ∅ None) as (overrides' & Heq & Hkeys).
  rewrite Heq. cbv iota beta. simpl default.
  apply ambientLoop_spec. intros key. rewrite Hkeys, lookup_empty.
  split; [intros [[? ?]|?]; done|by right].
Qed.

Lemma resolveEnv_none (w : World) (et : ExecTask) (cenv : option (list string)) :
  Env et = [] → resolveEnv w et cenv = cenv.
Proof. intros H. unfold resolveEnv. by rewrite H. Qed.

Lemma buildCmd_Env (w : World) (et : ExecTask) :
  cmd_Env (buildCmd w et) = resolveEnv w et None.
Proof.
  unfold buildCmd. destruct (buildCommand w et) as [command commandArgs].
  simpl. by destruct (Stdin et).
Qed.

End Environment.

(** ** The paths through Execute *)

(** Splits a goal about [Execute w et ctx] into the paths of the
    function: expired context, start error, endless wait, return. *)
Ltac execute_paths w et ctx :=
  unfold Execute;
  destruct (ctx_Err (deadlineCtx w et ctx) (w_now w)) as [?e|] eqn:?Hcheck;
  [| destruct (w_start_err w) as [?startErr|] eqn:?Hstart;
     [| destruct (copyStream (stdoutWriters w et) (c_stdout (w_child w)))
          as [?outs ?outErr] eqn:?Hout;
        destruct (copyStream (stderrWriters w et) (c_stderr (w_child w)))
          as [?errs ?errErr] eqn:?Herr;
        destruct (processEnd (deadlineCtx w et ctx) (w_now w) (w_child w))
          as [[[?execEnd ?st] ?killed]|] eqn:?Hend ] ];
  cbv zeta; simpl o_ret; simpl o_trace; simpl o_stdout; simpl o_stderr;
  simpl o_stdout_err; simpl o_stderr_err.

(** Membership of an event in a trace built by appending. *)
Ltac trace_solver :=
  rewrite ?elem_of_app, ?elem_of_cons, ?elem_of_nil;
  intuition (try discriminate; try congruence).

Section Paths.
Variables (w : World) (et : ExecTask) (ctx : Context).


Lemma Execute_start_cmd (c : Cmd) :
  EvStart c ∈ o_trace (Execute w et ctx) → c = buildCmd w et.
Proof.
  execute_paths w et ctx; try destruct killed; destruct (PrintCommand et);
    trace_solver.
Qed.

Lemma Execute_expired (e : error) :
  ctx_Err (deadlineCtx w et ctx) (w_now w) = Some e →
  o_ret (Execute w et ctx)
    = Some (mkExecResult "" "" (-1) false (bool_decide (e = Canceled)) 0, Some e)
  ∧ ∀ c, EvStart c ∉ o_trace (Execute w et ctx).
Proof.
  intros He. unfold Execute. rewrite He. cbv zeta. simpl.
  split; [reflexivity|]. intros c. destruct (PrintCommand et); trace_solver.
Qed.

Lemma Execute_live_starts :
  ctx_Err (deadlineCtx w et ctx) (w_now w) = None →
  EvStart (buildCmd w et) ∈ o_trace (Execute w et ctx).
Proof.
  intros Hlive. execute_paths w et ctx; [congruence|..];
    try destruct killed; destruct (PrintCommand et); trace_solver.
Qed.

(** On the path where the child is created, the destinations after
    the call are those the copying goroutines leave. *)
Lemma Execute_started_streams :
  started w et ctx →
  (o_stdout (Execute w et ctx), o_stdout_err (Execute w et ctx))
    = copyStream (stdoutWriters w et) (c_stdout (w_child w))
  ∧ (o_stderr (Execute w et ctx), o_stderr_err (Execute w et ctx))
    = copyStream (stderrWriters w et) (c_stderr (w_child w)).
Proof.
  intros [Hlive Hok]. execute_paths w et ctx; try congruence; by split.
Qed.

End Paths.

(** ** Output Fan-Out *)

Section FanOut.

Lemma received_nil (d : Dest) : received [] d d.
Proof. split; [reflexivity|]. by rewrite app_nil_r. Qed.

Lemma received_app (got1 got2 : list byte) (d0 d1 d2 : Dest) :
  received got1 d0 d1 → received got2 d1 d2 → received (got1 ++ got2) d0 d2.
Proof.
  intros [Hk1 Hd1] [Hk2 Hd2]. split; [congruence|].
  by rewrite Hd2, Hd1, app_assoc.
Qed.

Lemma Forall2_received_nil (ds : list Dest) : Forall2 (received []) ds ds.
Proof. induction ds; constructor; auto using received_nil. Qed.

Lemma Forall2_received_app (got1 got2 : list byte) (ds0 ds1 ds2 : list Dest) :
  Forall2 (received got1) ds0 ds1 →
  Forall2 (received got2) ds1 ds2 →
  Forall2 (received (got1 ++ got2)) ds0 ds2.
Proof.
  intros H01. revert ds2. induction H01 as [|d0 d1 ds0 ds1 Hd H01 IH]; intros ds2 H12.
  - inversion H12. constructor.
  - inversion H12 as [|? d2 ? ds2' Hd' H12']; subst.
    constructor; eauto using received_app.
Qed.

Lemma Forall2_receivedPrefix_after (got stream : list byte) (ds0 ds1 ds2 : list Dest) :
  Forall2 (received got) ds0 ds1 →
  Forall2 (receivedPrefix stream) ds1 ds2 →
  Forall2 (receivedPrefix (got ++ stream)) ds0 ds2.
Proof.
  intros H01. revert ds2. induction H01 as [|d0 d1 ds0 ds1 Hd H01 IH]; intros ds2 H12.
  - inversion H12. constructor.
  - inversion H12 as [|? d2 ? ds2' (got' & Hpre & Hd') H12']; subst.
    constructor; [|by apply IH].
    exists (got ++ got'). split; [by apply prefix_app|].
    eauto using received_app.
Qed.

Lemma receivedPrefix_weaken (stream more : list byte) (d0 d1 : Dest) :
  receivedPrefix stream d0 d1 → receivedPrefix (stream ++ more) d0 d1.
Proof. intros (got & Hpre & Hd). exists got. split; [by apply prefix_app_r|done]. Qed.

(** One write: the writer takes the whole of [p] when it reports no
    error, and some first part of it in any case. *)
Lemma Write_spec (wr : Writer) (p : list byte) :
  ∀ wr' n err, Write wr p = (wr', n, err) →
    (err = None → n = length p ∧ w_data wr' = w_data wr ++ p)
    ∧ ∃ got, got `prefix_of` p ∧ w_data wr' = w_data wr ++ got.
Proof.
  intros wr' n err. unfold Write.
  destruct (w_room wr) as [k|].
  - destruct (length p <=? k) eqn:Hfit; intros [= <- <- <-]; simpl.
    + split; [done|]. by exists p.
    + split; [done|]. exists (take k p). split; [apply prefix_take|done].
  - intros [= <- <- <-]; simpl. split; [done|]. by exists p.
Qed.

(** One write to the broadcasting writer. *)
Lemma multiWrite_spec (p : list byte) (ws : list Dest) :
  ∀ ws' n err, multiWrite ws p = (ws', n, err) →
    (err = None → n = length p ∧ Forall2 (received p) ws ws')
    ∧ Forall2 (receivedPrefix p) ws ws'.
Proof.
  induction ws as [|d rest IH]; intros ws' n err; simpl.
  - intros [= <- <- <-]. split; [split; [done|constructor]|constructor].
  - destruct (Write (d_writer d) p) as [[wr' m] werr] eqn:HW.
    destruct (Write_spec _ _ _ _ _ HW) as [Hfull (got & Hpre & Hgot)].
    assert (Hhead : receivedPrefix p d (mkDest (d_kind d) wr'))
      by (exists got; repeat split; done).
    assert (Hrest : Forall2 (receivedPrefix p) rest rest).
    { eapply Forall2_impl; [apply Forall2_received_nil|].
      intros d0 d1 Hd. exists []. split; [apply prefix_nil|done]. }
    destruct werr as [e|].
    + intros [= <- <- <-]. split; [done|]. by constructor.
    + destruct (Hfull eq_refl) as [-> Hdata].
      rewrite Nat.eqb_refl.
      destruct (multiWrite rest p) as [[rest' n'] err'] eqn:HM.
      destruct (IH _ _ _ eq_refl) as [IHfull IHpre].
      intros [= <- <- <-]. split.
      * intros Herr. destruct (IHfull Herr) as [-> Hall].
        split; [done|]. constructor; [by split|done].
      * by constructor.
Qed.

(** The copy of a whole stream. *)
Lemma copyStream_spec (chunks : list (list byte)) :
  ∀ ws ws' err, copyStream ws chunks = (ws', err) →
    (err = None → Forall2 (received (streamBytes chunks)) ws ws')
    ∧ Forall2 (receivedPrefix (streamBytes chunks)) ws ws'.
Proof.
  induction chunks as [|p rest IH]; intros ws ws' err; simpl.
  - intros [= <- <-]. split; [intros _; apply Forall2_received_nil|].
    eapply Forall2_impl; [apply Forall2_received_nil|].
    intros d0 d1 Hd. exists []. by split.
  - destruct (multiWrite ws p) as [[ws1 n] merr] eqn:HM.
    destruct (multiWrite_spec _ _ _ _ _ HM) as [Hfull Hpre].
    destruct merr as [e|].
    + intros [= <- <-]. split; [done|].
      eapply Forall2_impl; [exact Hpre|]. intros d0 d1. apply receivedPrefix_weaken.
    + destruct (Hfull eq_refl) as [-> Hall]. rewrite Nat.eqb_refl.
      intros Hcopy. destruct (IH _ _ _ Hcopy) as [IHfull IHpre]. split.
      * intros Herr. eapply Forall2_received_app; eauto.
      * eapply Forall2_receivedPrefix_after; eauto.
Qed.

(** The destination of a kind is found again after the call, with
    what it received. *)
Lemma destOf_Forall2 (R : Dest → Dest → Prop) (k : DestKind) (ds ds' : list Dest) :
  (∀ d d', R d d' → d_kind d' = d_kind d) →
  Forall2 R ds ds' →
  ∀ wr, destOf k ds = Some wr →
    ∃ d d', R d d' ∧ d_writer d = wr ∧ destOf k ds' = Some (d_writer d').
Proof.
  intros Hkind HF. unfold destOf.
  induction HF as [|d d' ds ds' Hd HF IH]; intros wr; simpl; [done|].
  rewrite (Hkind _ _ Hd).
  destruct (bool_decide (d_kind d = k)); simpl.
  - intros [= <-]. eauto.
  - apply IH.
Qed.

Lemma stdoutWriters_sink (w : World) (et : ExecTask) (sink : Writer) :
  StdOutWriter et = Some sink → destOf DSink (stdoutWriters w et) = Some sink.
Proof.
  intros Hs. unfold stdoutWriters. rewrite Hs.
  destruct (OutputFile et), (DisableStdioBuffer et), (StreamStdio et); reflexivity.
Qed.

Lemma stderrWriters_sink (w : World) (et : ExecTask) (sink : Writer) :
  StdErrWriter et = Some sink → destOf DSink (stderrWriters w et) = Some sink.
Proof.
  intros Hs. unfold stderrWriters. rewrite Hs.
  destruct (ErrorFile et), (DisableStdioBuffer et), (StreamStdio et); reflexivity.
Qed.

(** Without buffering no destination is the local buffer. *)
Lemma stdoutWriters_nobuffer (w : World) (et : ExecTask) :
  DisableStdioBuffer et = true → destOf DBuffer (stdoutWriters w et) = None.
Proof.
  intros Hd. unfold stdoutWriters. rewrite Hd.
  destruct (OutputFile et), (StreamStdio et), (StdOutWriter et); reflexivity.
Qed.

Lemma stderrWriters_nobuffer (w : World) (et : ExecTask) :
  DisableStdioBuffer et = true → destOf DBuffer (stderrWriters w et) = None.
Proof.
  intros Hd. unfold stderrWriters. rewrite Hd.
  destruct (ErrorFile et), (StreamStdio et), (StdErrWriter et); reflexivity.
Qed.

(** The kinds of the destinations do not change during a copy, so a
    kind that is absent before is absent after. *)
Lemma destOf_None_Forall2 (R : Dest → Dest → Prop) (k : DestKind) (ds ds' : list Dest) :
  (∀ d d', R d d' → d_kind d' = d_kind d) →
  Forall2 R ds ds' → destOf k ds = None → destOf k ds' = None.
Proof.
  intros Hkind HF. unfold destOf.
  induction HF as [|d d' ds ds' Hd HF IH]; simpl; [done|].
  rewrite (Hkind _ _ Hd).
  destruct (bool_decide (d_kind d = k)); simpl; [done|apply IH].
Qed.

Lemma receivedPrefix_kind (stream : list byte) (d d' : Dest) :
  receivedPrefix stream d d' → d_kind d' = d_kind d.
Proof. by intros (got & _ & Hk & _). Qed.

Lemma received_kind (got : list byte) (d d' : Dest) :
  received got d d' → d_kind d' = d_kind d.
Proof. by intros [Hk _]. Qed.

End FanOut.

(** ** Command Builder *)

Section CommandBuilder.
Variables (w : World) (et : ExecTask).

Lemma buildCmd_Args : cmd_Args (buildCmd w et) = (buildCommand w et).1 :: (buildCommand w et).2.
Proof.
  unfold buildCmd. destruct (buildCommand w et) as [command commandArgs].
  simpl. by destruct (Stdin et).
Qed.

Lemma buildCmd_Path : cmd_Path (buildCmd w et) = (buildCommand w et).1.
Proof.
  unfold buildCmd. destruct (buildCommand w et) as [command commandArgs].
  simpl. by destruct (Stdin et).
Qed.

Lemma buildCommand_direct : Shell et = false → buildCommand w et = (Command et, Args et).
Proof. intros H. unfold buildCommand. by rewrite H. Qed.

Lemma buildCommand_shell_args :
  Shell et = true → Args et ≠ [] →
  buildCommand w et
  = (resolveShell w, ["-c"; Command et +:+ " " +:+ GoStrings.Join (Args et) " "]).
Proof.
  intros Hs Ha. unfold buildCommand. rewrite Hs.
  destruct (Args et) as [|a rest]; [done|]. reflexivity.
Qed.

Lemma buildCommand_shell_line :
  Shell et = true → Args et = [] →
  buildCommand w et
  = (resolveShell w, ["-c"; GoStrings.Join (GoStrings.Split (Command et) " ") " "]).
Proof. intros Hs Ha. unfold buildCommand. rewrite Hs, Ha. reflexivity. Qed.

End CommandBuilder.

(** C3: in direct mode ([Shell = false]) the command handed to process
    creation has the argv [Command :: Args], the command and every
    argument verbatim with no splitting on spaces; it is the only
    command [Execute] ever starts, and [Execute] does start it whenever
    the context is live at the check. *)
Theorem C3_direct_argv_verbatim (w : World) (et : ExecTask) (ctx : Context) :
  Shell et = false →
  cmd_Path (buildCmd w et) = Command et
  ∧ cmd_Args (buildCmd w et) = Command et :: Args et
  ∧ (∀ c, EvStart c ∈ o_trace (Execute w et ctx) → cmd_Args c = Command et :: Args et)
  ∧ (ctx_Err (deadlineCtx w et ctx) (w_now w) = None →
     EvStart (buildCmd w et) ∈ o_trace (Execute w et ctx)).
Proof.
  intros Hdirect.
  assert (Hargv : cmd_Args (buildCmd w et) = Command et :: Args et)
    by (by rewrite buildCmd_Args, buildCommand_direct).
  repeat split.
  - by rewrite buildCmd_Path, buildCommand_direct.
  - exact Hargv.
  - intros c Hc. by rewrite (Execute_start_cmd _ _ _ _ Hc).
  - apply Execute_live_starts.
Qed.

Lemma C3_direct_argv_verbatim_witness :
  cmd_Args (buildCmd (Sample.world Sample.echoChild) Sample.spacesTask)
  = ["/opt/my tools/run"; "my file.txt"; "b"]
  ∧ EvStart (buildCmd (Sample.world Sample.echoChild) Sample.spacesTask)
    ∈ o_trace (Execute (Sample.world Sample.echoChild) Sample.spacesTask Sample.background).
Proof.
  destruct (C3_direct_argv_verbatim (Sample.world Sample.echoChild) Sample.spacesTask
              Sample.background eq_refl) as (_ & Hargv & _ & Hstart).
  split; [exact Hargv|]. apply Hstart. reflexivity.
Defined.

(** C5: in shell mode ([Shell = true]) the argv is the interpreter,
    ["-c"] and the script.  With arguments the script is
    [Command + " " + Join(Args, " ")]; without arguments it is
    [Command] split on spaces and joined with single spaces, which is
    [Command] itself. *)
Theorem C5_shell_script (w : World) (et : ExecTask) :
  Shell et = true →
  (Args et ≠ [] →
   cmd_Args (buildCmd w et)
   = [resolveShell w; "-c"; Command et +:+ " " +:+ GoStrings.Join (Args et) " "])
  ∧ (Args et = [] →
     cmd_Args (buildCmd w et)
     = [resolveShell w; "-c"; GoStrings.Join (GoStrings.Split (Command et) " ") " "]
     ∧ GoStrings.Join (GoStrings.Split (Command et) " ") " " = Command et).
Proof.
  intros Hshell. split.
  - intros Hargs. by rewrite buildCmd_Args, buildCommand_shell_args.
  - intros Hargs. split; [by rewrite buildCmd_Args, buildCommand_shell_line|].
    apply Join_Split.
Qed.

Lemma C5_shell_script_witness :
  cmd_Args (buildCmd (Sample.world Sample.echoChild) Sample.shellArgsTask)
  = ["sh"; "-c"; "sh /tmp/script.sh a"]
  ∧ cmd_Args (buildCmd (Sample.world Sample.echoChild) Sample.shellLineTask)
    = ["sh"; "-c"; "ls  -l | wc"].
Proof.
  split.
  - apply (C5_shell_script (Sample.world Sample.echoChild) Sample.shellArgsTask eq_refl).
    discriminate.
  - destruct (C5_shell_script (Sample.world Sample.echoChild) Sample.shellLineTask eq_refl)
      as [_ Hline].
    destruct (Hline eq_refl) as [Hargv Hsame].
    rewrite Hargv, Hsame. reflexivity.
Defined.

(** ** Environment Resolver *)

(** C4: with a non-empty override list the environment list of the
    command is the overrides followed by exactly the ambient variables
    whose key no override names, in their order; so every override
    entry is in the list and no entry after the overrides carries an
    overridden key.  With an empty override list the list stays nil,
    for which os/exec lets the child inherit the ambient environment. *)
Theorem C4_environment (w : World) (et : ExecTask) :
  (Env et ≠ [] →
   cmd_Env (buildCmd w et) = Some (Env et ++ inherited (Env et) (w_environ w))
   ∧ (∀ env, env ∈ Env et → env ∈ Env et ++ inherited (Env et) (w_environ w))
   ∧ (∀ env, env ∈ inherited (Env et) (w_environ w) →
        env ∈ w_environ w ∧ envKey env ∉ envKeys (Env et))
   ∧ (∀ env, env ∈ w_environ w → envKey env ∉ envKeys (Env et) →
        env ∈ inherited (Env et) (w_environ w)))
  ∧ (Env et = [] → cmd_Env (buildCmd w et) = None).
Proof.
  split.
  - intros Hne. split; [|split; [|split]].
    + by rewrite buildCmd_Env, resolveEnv_overrides.
    + intros env Hin. apply elem_of_app. by left.
    + intros env Hin. unfold inherited in Hin.
      apply list_elem_of_filter in Hin as [Hkey Hamb]. by split.
    + intros env Hin Hkey. unfold inherited. by apply list_elem_of_filter.
  - intros Hnil. by rewrite buildCmd_Env, resolveEnv_none.
Qed.

Lemma C4_environment_witness :
  cmd_Env (buildCmd (Sample.world Sample.echoChild) Sample.envTask)
  = Some ["FOO=override"; "BAR=1"; "PATH=/bin"; "HOME=/root"]
  ∧ cmd_Env (buildCmd (Sample.world Sample.echoChild) Sample.echoTask) = None.
Proof.
  destruct (C4_environment (Sample.world Sample.echoChild) Sample.envTask) as [Hover _].
  destruct (C4_environment (Sample.world Sample.echoChild) Sample.echoTask) as [_ Hnone].
  split.
  - destruct Hover as [Heq _]; [discriminate|]. rewrite Heq. reflexivity.
  - apply Hnone. reflexivity.
Defined.

(** ** The script helper *)

Section Options.
Variable et : ExecTask.

Lemma WithShell_empty : WithShell "" et = et.
Proof. reflexivity. Qed.

Lemma WithShell_nonempty (shell : string) :
  shell ≠ "" → WithShell shell et = set_Shell true (set_Command shell et).
Proof.
  intros Hne. unfold WithShell.
  destruct (String.eqb_spec shell ""); [done|reflexivity].
Qed.

End Options.

(** C10: [WithShell("")] leaves the task as it is, so the helper's
    default interpreter ["sh"] and its [Shell] flag are kept; for a
    non-empty [s], [WithShell(s)] sets [Command] to [s] and [Shell] to
    true and touches no other field. *)
Theorem C10_WithShell (et : ExecTask) (scriptPath : string) :
  WithShell "" et = et
  ∧ Command (WithShell "" (scriptTask scriptPath)) = "sh"
  ∧ Shell (WithShell "" (scriptTask scriptPath)) = true
  ∧ ∀ s, s ≠ "" →
      Command (WithShell s et) = s
      ∧ Shell (WithShell s et) = true
      ∧ WithShell s et
        = mkExecTask s (Args et) true (Env et) (Cwd et) (Stdin et)
            (PrintCommand et) (StreamStdio et) (DisableStdioBuffer et)
            (StdOutWriter et) (StdErrWriter et) (Timeout et) (OutputFile et) (ErrorFile et).
Proof.
  split; [apply WithShell_empty|]. split; [reflexivity|]. split; [reflexivity|].
  intros s Hs. rewrite (WithShell_nonempty et s Hs). by repeat split.
Qed.

Lemma C10_WithShell_witness :
  Command (WithShell "bash" (scriptTask "/tmp/script.sh")) = "bash"
  ∧ Shell (WithShell "bash" Sample.echoTask) = true.
Proof.
  destruct (C10_WithShell (scriptTask "/tmp/script.sh") "") as (_ & _ & _ & Hset1).
  destruct (C10_WithShell Sample.echoTask "") as (_ & _ & _ & Hset2).
  split.
  - apply (Hset1 "bash"). discriminate.
  - apply (Hset2 "bash"). discriminate.
Defined.



(** ** Process Runner: deadline and cancellation *)

Section Contexts.

Lemma Cause_error_inj (k1 k2 : Cause) : Cause_error k1 = Cause_error k2 → k1 = k2.
Proof. by destruct k1, k2. Qed.

Lemma ctx_Err_Some (ctx : Context) (t : nat) (e : error) :
  ctx_Err ctx t = Some e ↔ ∃ te k, ctx = Some (te, k) ∧ te ≤ t ∧ e = Cause_error k.
Proof.
  unfold ctx_Err. destruct ctx as [[te k]|].
  - destruct (Nat.leb_spec te t); split.
    + intros [= <-]. eauto.
    + intros (te' & k' & [= <- <-] & _ & ->). done.
    + done.
    + intros (te' & k' & [= <- <-] & Hle & _). lia.
  - split; [done|]. by intros (? & ? & ? & _).
Qed.

(** Once done a context stays done, with the same error. *)
Lemma ctx_Err_sticky (ctx : Context) (t t' : nat) (e : error) :
  ctx_Err ctx t = Some e → t ≤ t' → ctx_Err ctx t' = Some e.
Proof.
  rewrite !ctx_Err_Some. intros (te & k & -> & Hle & ->) Hlater.
  exists te, k. repeat split; [lia].
Qed.

Lemma ctx_Err_deadline (ctx : Context) (t : nat) :
  ctx_Err ctx t = Some DeadlineExceeded → ∃ te, ctx = Some (te, CauseDeadline).
Proof.
  rewrite ctx_Err_Some. intros (te & k & -> & _ & Hk). exists te. by destruct k.
Qed.

Lemma ctx_Err_canceled (ctx : Context) (t : nat) :
  ctx_Err ctx t = Some Canceled → ∃ te, ctx = Some (te, CauseCanceled).
Proof.
  rewrite ctx_Err_Some. intros (te & k & -> & _ & Hk). exists te. by destruct k.
Qed.


(** Without a timeout [Execute] runs under the caller's context. *)
Lemma deadlineCtx_none (w : World) (et : ExecTask) (ctx : Context) :
  (Timeout et ≤ 0)%Z → deadlineCtx w et ctx = ctx.
Proof. intros H. unfold deadlineCtx. by destruct (Z.ltb_spec 0 (Timeout et)); [lia|]. Qed.

(** A context that is done at the call stays the cause under a timeout. *)
Lemma deadlineCtx_expired (w : World) (et : ExecTask) (ctx : Context) (e : error) :
  ctx_Err ctx (w_now w) = Some e → ctx_Err (deadlineCtx w et ctx) (w_now w) = Some e.
Proof.
  intros He. unfold deadlineCtx. destruct (0 <? Timeout et)%Z eqn:Hpos; [|done].
  apply ctx_Err_Some in He as (te & k & -> & Hle & ->).
  unfold WithTimeout.
  destruct (Nat.ltb_spec te (w_now w + Z.to_nat (Timeout et))) as [Hlt|Hge].
  - apply ctx_Err_Some. eauto.
  - apply Z.ltb_lt in Hpos. lia.
Qed.

End Contexts.

(** C2, the part the code keeps: a context that is already done at the
    call makes [Execute] return at once with exit code [-1], the
    context's error, and no command started; [Cancelled] is set exactly
    when the error is [context.Canceled], and [Timedout] is never set
    on this path. *)
Lemma Execute_preflight (w : World) (et : ExecTask) (ctx : Context) (e : error) :
  ctx_Err ctx (w_now w) = Some e →
  o_ret (Execute w et ctx)
    = Some (mkExecResult "" "" (-1) false (bool_decide (e = Canceled)) 0, Some e)
  ∧ ∀ c, EvStart c ∉ o_trace (Execute w et ctx).
Proof. intros He. apply Execute_expired. by apply deadlineCtx_expired. Qed.

(** C2 at its failing input: the context's deadline had passed before
    the call.  [Execute] returns exit code [-1] and
    [context.DeadlineExceeded] without starting a command, but with
    [Timedout = false] (and [Cancelled = false]): the early return of
    lines 94-100 sets [Cancelled] only, where the final return of lines
    213-220 sets both flags from the same [ctx.Err()]. *)
Theorem C2_passed_deadline_not_flagged :
  o_ret (Execute (Sample.world Sample.echoChild) Sample.echoTask Sample.deadlinePassed)
  = Some (mkExecResult "" "" (-1) false false 0, Some DeadlineExceeded)
  ∧ o_trace (Execute (Sample.world Sample.echoChild) Sample.echoTask Sample.deadlinePassed)
    = [EvExecute Sample.echoTask].
Proof. split; reflexivity. Qed.

(** The same call under a cancelled context reports [Cancelled]. *)
Example Execute_cancelled_before :
  o_ret (Execute (Sample.world Sample.echoChild) Sample.echoTask Sample.cancelledBefore)
  = Some (mkExecResult "" "" (-1) false true 0, Some Canceled).
Proof. reflexivity. Qed.



(** C7: in every result [Execute] returns at most one of [Timedout] and
    [Cancelled] is set, and a flag that is set names what ended the
    context [Execute] ran under: [Timedout] its deadline, [Cancelled] a
    cancellation. *)
Theorem C7_flags_exclusive (w : World) (et : ExecTask) (ctx : Context)
    (r : ExecResult) (err : option error) :
  o_ret (Execute w et ctx) = Some (r, err) →
  ¬ (Timedout r = true ∧ Cancelled r = true)
  ∧ (Timedout r = true → ∃ te, deadlineCtx w et ctx = Some (te, CauseDeadline))
  ∧ (Cancelled r = true → ∃ te, deadlineCtx w et ctx = Some (te, CauseCanceled)).
Proof.
  intros Hret.
  assert (Hcauses :
    (Timedout r = true → ∃ te, deadlineCtx w et ctx = Some (te, CauseDeadline))
    ∧ (Cancelled r = true → ∃ te, deadlineCtx w et ctx = Some (te, CauseCanceled))).
  { revert Hret. execute_paths w et ctx; intros [= <- <-]; simpl.
    - split; [done|]. intros Hc. apply bool_decide_eq_true in Hc as ->.
      by apply ctx_Err_canceled in Hcheck.
    - done.
    - split; intros Hflag; apply bool_decide_eq_true in Hflag.
      + by apply ctx_Err_deadline in Hflag.
      + by apply ctx_Err_canceled in Hflag. }
  destruct Hcauses as [Htimed Hcanc]. split; [|by split].
  intros [Ht Hc]. destruct (Htimed Ht) as [te Hte]. destruct (Hcanc Hc) as [te' Hte'].
  congruence.
Qed.

Lemma C7_flags_exclusive_witness :
  ¬ (true = true ∧ false = true)
  ∧ ∃ te, deadlineCtx (Sample.world Sample.sleepChild) Sample.timeoutTask Sample.background
          = Some (te, CauseDeadline).
Proof.
  destruct (C7_flags_exclusive (Sample.world Sample.sleepChild) Sample.timeoutTask
              Sample.background (mkExecResult "" "" (-1) true false 10)
              (Some DeadlineExceeded) eq_refl) as (Hexcl & Htimed & _).
  split; [exact Hexcl|]. apply Htimed. reflexivity.
Defined.

(** ** Output Fan-Out through Execute *)

Section ExecuteFanOut.
Variables (w : World) (et : ExecTask) (ctx : Context).

Lemma Execute_stdout_copy :
  started w et ctx →
  (o_stdout_err (Execute w et ctx) = None →
   Forall2 (received (streamBytes (c_stdout (w_child w))))
     (stdoutWriters w et) (o_stdout (Execute w et ctx)))
  ∧ Forall2 (receivedPrefix (streamBytes (c_stdout (w_child w))))
      (stdoutWriters w et) (o_stdout (Execute w et ctx)).
Proof.
  intros Hrun. destruct (Execute_started_streams w et ctx Hrun) as [Hout _].
  symmetry in Hout. by apply copyStream_spec in Hout.
Qed.

Lemma Execute_stderr_copy :
  started w et ctx →
  (o_stderr_err (Execute w et ctx) = None →
   Forall2 (received (streamBytes (c_stderr (w_child w))))
     (stderrWriters w et) (o_stderr (Execute w et ctx)))
  ∧ Forall2 (receivedPrefix (streamBytes (c_stderr (w_child w))))
      (stderrWriters w et) (o_stderr (Execute w et ctx)).
Proof.
  intros Hrun. destruct (Execute_started_streams w et ctx Hrun) as [_ Herr].
  symmetry in Herr. by apply copyStream_spec in Herr.
Qed.


(** Without buffering the local buffers stay empty. *)
Lemma Execute_unbuffered_result (r : ExecResult) (err : option error) :
  DisableStdioBuffer et = true →
  o_ret (Execute w et ctx) = Some (r, err) → Stdout r = "" ∧ Stderr r = "".
Proof.
  intros Hoff. execute_paths w et ctx; intros [= <- <-]; simpl; [done..|].
  apply copyStream_spec in Hout as [_ Hout]. apply copyStream_spec in Herr as [_ Herr].
  unfold bufferOf.
  rewrite (destOf_None_Forall2 _ DBuffer _ _
             (receivedPrefix_kind _) Hout (stdoutWriters_nobuffer w et Hoff)).
  rewrite (destOf_None_Forall2 _ DBuffer _ _
             (receivedPrefix_kind _) Herr (stderrWriters_nobuffer w et Hoff)).
  done.
Qed.

End ExecuteFanOut.




(** C8 as the specification states it fails: without buffering, with a
    raw output file that is already closed and a caller's sink, the
    sink receives none of the bytes the child wrote to stdout. *)
Lemma C8_unbuffered_counterexample :
  ¬ unbufferedSinkComplete (Sample.world Sample.echoChild) Sample.unbufferedClosedFileTask
      Sample.background.
Proof.
  intros Hclaim. destruct (Hclaim eq_refl) as [_ Hsinks].
  destruct Hsinks as [Hout _]; [by split|].
  destruct (Hout Sample.sink eq_refl) as (sink' & Hfind & Hdata).
  vm_compute in Hfind. injection Hfind as <-. vm_compute in Hdata. discriminate Hdata.
Qed.

(** C8, amended: with [DisableStdioBuffer = true] the [Stdout] and
    [Stderr] of every result are empty whatever the child writes; and
    once the child runs, a caller's sink for a stream holds, after what
    it held before, all the bytes the child wrote to that stream,
    provided that the copy of that stream met no write error. *)
Theorem C8_unbuffered (w : World) (et : ExecTask) (ctx : Context) :
  DisableStdioBuffer et = true →
  (∀ r err, o_ret (Execute w et ctx) = Some (r, err) → Stdout r = "" ∧ Stderr r = "")
  ∧ (started w et ctx →
     (∀ sink, StdOutWriter et = Some sink →
        o_stdout_err (Execute w et ctx) = None →
        ∃ sink', destOf DSink (o_stdout (Execute w et ctx)) = Some sink'
                 ∧ w_data sink' = w_data sink ++ streamBytes (c_stdout (w_child w)))
     ∧ (∀ sink, StdErrWriter et = Some sink →
        o_stderr_err (Execute w et ctx) = None →
        ∃ sink', destOf DSink (o_stderr (Execute w et ctx)) = Some sink'
                 ∧ w_data sink' = w_data sink ++ streamBytes (c_stderr (w_child w)))).
Proof.
  intros Hoff. split.
  - intros r err. by apply Execute_unbuffered_result.
  - intros Hrun. split; intros sink Hsink Hnoerr.
    + destruct (Execute_stdout_copy w et ctx Hrun) as [Hall _].
      destruct (destOf_Forall2 _ DSink _ _ (received_kind _) (Hall Hnoerr) sink
                  (stdoutWriters_sink w et sink Hsink)) as (d & d' & [_ Hd] & <- & Hfind).
      eauto.
    + destruct (Execute_stderr_copy w et ctx Hrun) as [Hall _].
      destruct (destOf_Forall2 _ DSink _ _ (received_kind _) (Hall Hnoerr) sink
                  (stderrWriters_sink w et sink Hsink)) as (d & d' & [_ Hd] & <- & Hfind).
      eauto.
Qed.

Lemma C8_unbuffered_witness :
  (∀ r err, o_ret (Execute (Sample.world Sample.echoChild) Sample.unbufferedTask
                     Sample.background) = Some (r, err) →
            Stdout r = "" ∧ Stderr r = "")
  ∧ ∃ sink', destOf DSink (o_stdout (Execute (Sample.world Sample.echoChild)
                                       Sample.unbufferedTask Sample.background))
             = Some sink'
             ∧ w_data sink' = w_data Sample.sink ++ Sample.hello.
Proof.
  destruct (C8_unbuffered (Sample.world Sample.echoChild) Sample.unbufferedTask
              Sample.background eq_refl) as [Hempty Hsinks].
  split; [exact Hempty|].
  destruct Hsinks as [Hout _]; [by split|].
  apply (Hout Sample.sink); reflexivity.
Defined.


(** * Further properties *)

(** ** The options of the script helper *)

Section HelperOptions.
Variable scriptPath : string.

Lemma helperTask_default : helperTaskOf scriptPath (scriptTask scriptPath).
Proof. unfold helperTaskOf. simpl. repeat split; eauto. Qed.

Lemma helperTask_step (opt : ShellScriptOption) (et : ExecTask) :
  helperOption opt → helperTaskOf scriptPath et → helperTaskOf scriptPath (opt et).
Proof.
  intros Hopt (Hsh & Hcmd & [extra Hargs] & Hrest).
  destruct Hopt as [env|shell|cwd|args|out err]; unfold helperTaskOf.
  - simpl. repeat split; eauto; tauto.
  - unfold WithShell. destruct (String.eqb_spec shell ""); simpl.
    + repeat split; eauto; tauto.
    + repeat split; eauto; tauto.
  - simpl. repeat split; eauto; tauto.
  - simpl. rewrite Hargs. repeat split; eauto; tauto.
  - simpl. repeat split; eauto; tauto.
Qed.

Lemma helperTask_applyOptions (opts : list ShellScriptOption) :
  Forall helperOption opts →
  ∀ et, helperTaskOf scriptPath et → helperTaskOf scriptPath (applyOptions opts et).
Proof.
  induction 1 as [|opt opts Hopt _ IH]; intros et Het; [done|].
  apply IH. by apply helperTask_step.
Qed.

End HelperOptions.

(** X1: whatever package options are given, the helper's task stays in
    shell mode with the script path as its first argument, so the
    process it creates is always the resolved [sh] with the argv
    [sh -c "<Command> <scriptPath> <args...>"]; [WithShell] changes the
    word in front of the script path, not the process that is created. *)
Theorem X1_helper_runs_through_sh (w : World) (scriptPath : string)
    (opts : list ShellScriptOption) :
  Forall helperOption opts →
  ∃ extra,
    Args (applyOptions opts (scriptTask scriptPath)) = scriptPath :: extra
    ∧ Command (applyOptions opts (scriptTask scriptPath)) ≠ ""
    ∧ cmd_Path (buildCmd w (applyOptions opts (scriptTask scriptPath))) = resolveShell w
    ∧ cmd_Args (buildCmd w (applyOptions opts (scriptTask scriptPath)))
      = [resolveShell w; "-c";
         Command (applyOptions opts (scriptTask scriptPath)) +:+ " "
         +:+ GoStrings.Join (scriptPath :: extra) " "].
Proof.
  intros Hopts.
  destruct (helperTask_applyOptions scriptPath opts Hopts _ (helperTask_default scriptPath))
    as (Hsh & Hcmd & [extra Hargs] & _).
  exists extra. split; [done|]. split; [done|].
  assert (Hne : Args (applyOptions opts (scriptTask scriptPath)) ≠ [])
    by (rewrite Hargs; discriminate).
  rewrite buildCmd_Path, buildCmd_Args, (buildCommand_shell_args _ _ Hsh Hne), Hargs.
  done.
Qed.

Lemma X1_helper_runs_through_sh_witness :
  cmd_Args (buildCmd (Sample.world Sample.echoChild)
              (applyOptions [WithShell "bash"; WithArgs ["a"; "b"]; WithCwd "/tmp"]
                 (scriptTask "/tmp/script.sh")))
  = ["sh"; "-c"; "bash /tmp/script.sh a b"].
Proof.
  destruct (X1_helper_runs_through_sh (Sample.world Sample.echoChild) "/tmp/script.sh"
              [WithShell "bash"; WithArgs ["a"; "b"]; WithCwd "/tmp"])
    as (extra & Hargs & _ & _ & Hargv).
  - repeat constructor.
  - rewrite Hargv. injection Hargs as <-. reflexivity.
Defined.

Lemma Execute_silent (w : World) (et : ExecTask) (ctx : Context) :
  PrintCommand et = false → ∀ line, EvPrint line ∉ o_trace (Execute w et ctx).
Proof.
  intros Hoff line. execute_paths w et ctx; rewrite Hoff;
    try destruct killed; trace_solver.
Qed.

(** X2: no package option sets a timeout, printing, streaming, the
    buffer switch or a sink, so the helper's call runs under the
    caller's context alone, prints no command line, and routes each
    stream to the raw file (when one was given) and then to the buffer
    of the result. *)
Theorem X2_helper_defaults (w : World) (ctx : Context) (scriptPath : string)
    (opts : list ShellScriptOption) :
  Forall helperOption opts →
  deadlineCtx w (applyOptions opts (scriptTask scriptPath)) ctx = ctx
  ∧ stdoutWriters w (applyOptions opts (scriptTask scriptPath))
    = optDest DFile (OutputFile (applyOptions opts (scriptTask scriptPath)))
      ++ [mkDest DBuffer emptyBuffer]
  ∧ stderrWriters w (applyOptions opts (scriptTask scriptPath))
    = optDest DFile (ErrorFile (applyOptions opts (scriptTask scriptPath)))
      ++ [mkDest DBuffer emptyBuffer]
  ∧ ∀ line, EvPrint line ∉ o_trace (ExecuteShellScript w ctx scriptPath opts).
Proof.
  intros Hopts.
  destruct (helperTask_applyOptions scriptPath opts Hopts _ (helperTask_default scriptPath))
    as (_ & _ & _ & Htimeout & Hprint & Hstream & Hbuf & _ & Hout & Herr).
  split; [|split; [|split]].
  - apply deadlineCtx_none. lia.
  - unfold stdoutWriters. rewrite Hbuf, Hstream, Hout. simpl. by rewrite app_nil_r.
  - unfold stderrWriters. rewrite Hbuf, Hstream, Herr. simpl. by rewrite app_nil_r.
  - intros line. unfold ExecuteShellScript.
    destruct (w_stat w scriptPath); cbv zeta;
      [by apply Execute_silent|simpl; apply not_elem_of_nil|by apply Execute_silent].
Qed.

Lemma X2_helper_defaults_witness :
  stdoutWriters (Sample.world Sample.echoChild)
    (applyOptions [WithOutputFiles (Some Sample.sink) None; WithEnv ["A=1"]]
       (scriptTask "/tmp/script.sh"))
  = [mkDest DFile Sample.sink; mkDest DBuffer emptyBuffer].
Proof.
  destruct (X2_helper_defaults (Sample.world Sample.echoChild) Sample.background
              "/tmp/script.sh" [WithOutputFiles (Some Sample.sink) None; WithEnv ["A=1"]])
    as (_ & Hout & _).
  - repeat constructor.
  - rewrite Hout. reflexivity.
Defined.

Section OptionComposition.

Lemma WithArgs_compose (a b : list string) (et : ExecTask) :
  WithArgs b (WithArgs a et) = WithArgs (a ++ b) et.
Proof. unfold WithArgs, set_Args. simpl. by rewrite app_assoc. Qed.

Lemma keepsEnv_WithShell (shell : string) : keepsEnv (WithShell shell).
Proof. intros et. unfold WithShell. by destruct (String.eqb shell ""). Qed.

Lemma keepsEnv_WithCwd (cwd : string) : keepsEnv (WithCwd cwd).
Proof. by intros et. Qed.

Lemma keepsEnv_WithArgs (args : list string) : keepsEnv (WithArgs args).
Proof. by intros et. Qed.

Lemma keepsEnv_WithOutputFiles (stdout stderr : option Writer) :
  keepsEnv (WithOutputFiles stdout stderr).
Proof. by intros et. Qed.

Lemma applyOptions_app (opts1 opts2 : list ShellScriptOption) (et : ExecTask) :
  applyOptions (opts1 ++ opts2) et = applyOptions opts2 (applyOptions opts1 et).
Proof. unfold applyOptions. apply foldl_app. Qed.

Lemma applyOptions_keepsEnv (opts : list ShellScriptOption) :
  Forall keepsEnv opts → ∀ et, Env (applyOptions opts et) = Env et.
Proof.
  induction 1 as [|opt opts Hopt _ IH]; intros et; [done|].
  change (applyOptions (opt :: opts) et) with (applyOptions opts (opt et)).
  by rewrite IH, Hopt.
Qed.

End OptionComposition.

(** X3: [WithArgs] accumulates: a run of [WithArgs] options leaves the
    arguments the task had, followed by all the given lists in the
    order of the options. *)
Theorem X3_WithArgs_accumulates (lists : list (list string)) (et : ExecTask) :
  Args (applyOptions (WithArgs <$> lists) et) = Args et ++ concat lists.
Proof.
  revert et. induction lists as [|args lists IH]; intros et.
  - simpl. by rewrite app_nil_r.
  - change (applyOptions (WithArgs <$> args :: lists) et)
      with (applyOptions (WithArgs <$> lists) (WithArgs args et)).
    rewrite IH. simpl. by rewrite app_assoc.
Qed.

(** X4: the last [WithEnv] wins, whatever options came before it and
    whatever options that leave the environment alone ([WithShell],
    [WithCwd], [WithArgs], [WithOutputFiles]) come after it; with a
    non-empty list the command then gets that list followed by the
    ambient variables it does not name. *)
Theorem X4_last_WithEnv_wins (w : World) (env : list string)
    (before after : list ShellScriptOption) (et : ExecTask) :
  Forall keepsEnv after →
  Env (applyOptions (before ++ WithEnv env :: after) et) = env
  ∧ (env ≠ [] →
     cmd_Env (buildCmd w (applyOptions (before ++ WithEnv env :: after) et))
     = Some (env ++ inherited env (w_environ w))).
Proof.
  intros Hafter.
  assert (HEnv : Env (applyOptions (before ++ WithEnv env :: after) et) = env).
  { rewrite applyOptions_app.
    change (applyOptions (WithEnv env :: after) (applyOptions before et))
      with (applyOptions after (WithEnv env (applyOptions before et))).
    by rewrite applyOptions_keepsEnv. }
  split; [done|]. intros Hne.
  rewrite buildCmd_Env, resolveEnv_overrides; rewrite HEnv; done.
Qed.

Lemma X4_last_WithEnv_wins_witness :
  cmd_Env (buildCmd (Sample.world Sample.echoChild)
             (applyOptions ([WithEnv ["OLD=1"]] ++ WithEnv ["FOO=2"] :: [WithArgs ["a"]; WithShell "bash"])
                (scriptTask "/tmp/script.sh")))
  = Some ["FOO=2"; "PATH=/bin"; "HOME=/root"].
Proof.
  destruct (X4_last_WithEnv_wins (Sample.world Sample.echoChild) ["FOO=2"]
              [WithEnv ["OLD=1"]] [WithArgs ["a"]; WithShell "bash"]
              (scriptTask "/tmp/script.sh")) as [_ Hcmd].
  - constructor; [apply keepsEnv_WithArgs|].
    constructor; [apply keepsEnv_WithShell|constructor].
  - rewrite Hcmd; [reflexivity|discriminate].
Defined.

(** ** The paths of Execute after the check *)

Section Runner.
Variables (w : World) (et : ExecTask) (ctx : Context).

(** The exit code taken from the error of [Wait] is the exit code of
    the process state, whatever the copying goroutines reported. *)
Lemma exitCode_of_Wait (st : WaitStatus) (outErr errErr : option error) :
  match Wait st outErr errErr with
  | Some (WaitExitError st') => ProcessState_ExitCode st'
  | _ => 0%Z
  end = ProcessState_ExitCode st.
Proof.
  unfold Wait. destruct st as [[|code|code]|sig]; simpl; try reflexivity;
    destruct outErr, errErr; reflexivity.
Qed.

Lemma processEnd_natural (off : nat) (st : WaitStatus) :
  c_exit (w_child w) = Some (off, st) →
  (∀ te k, deadlineCtx w et ctx = Some (te, k) → w_now w + off ≤ te) →
  processEnd (deadlineCtx w et ctx) (w_now w) (w_child w) = Some (w_now w + off, st, false).
Proof.
  intros Hexit Hfirst. unfold processEnd. rewrite Hexit.
  destruct (deadlineCtx w et ctx) as [[te k]|]; [|reflexivity].
  specialize (Hfirst te k eq_refl).
  destruct (Nat.leb_spec (w_now w + off) te); [reflexivity|lia].
Qed.

Lemma processEnd_killed (execEnd : nat) (st : WaitStatus) :
  processEnd (deadlineCtx w et ctx) (w_now w) (w_child w) = Some (execEnd, st, true) →
  st = Signaled SIGKILL ∧ ∃ k, deadlineCtx w et ctx = Some (execEnd, k).
Proof.
  unfold processEnd.
  destruct (c_exit (w_child w)) as [[off st']|], (deadlineCtx w et ctx) as [[te k]|];
    try discriminate.
  - destruct (w_now w + off <=? te); [discriminate|]. intros [= <- <-]. eauto.
  - intros [= <- <-]. eauto.
Qed.

End Runner.

(** X5: when the context is live at the check but [cmd.Start()] fails,
    [Execute] returns the zero result (exit code [0], no flag, no text)
    with the start error; the command was handed to process creation,
    nothing is killed and no destination has been written to. *)
Theorem X5_start_error (w : World) (et : ExecTask) (ctx : Context) (startErr : error) :
  ctx_Err (deadlineCtx w et ctx) (w_now w) = None →
  w_start_err w = Some startErr →
  o_ret (Execute w et ctx) = Some (zeroResult, Some startErr)
  ∧ EvStart (buildCmd w et) ∈ o_trace (Execute w et ctx)
  ∧ (EvKill ∉ o_trace (Execute w et ctx))
  ∧ o_stdout (Execute w et ctx) = stdoutWriters w et
  ∧ o_stderr (Execute w et ctx) = stderrWriters w et.
Proof.
  intros Hlive Hfail. split; [|split; [by apply Execute_live_starts|]].
  - unfold Execute. by rewrite Hlive, Hfail.
  - unfold Execute. rewrite Hlive, Hfail. cbv zeta. simpl.
    split; [|done]. destruct (PrintCommand et); trace_solver.
Qed.

Lemma X5_start_error_witness :
  o_ret (Execute
           (mkWorld 100 1 1 [] (fun _ => false) (fun _ => StatOk)
              (Some (Errorf "exec: no such file")) Sample.echoChild
              (mkWriter [] None) (mkWriter [] None))
           Sample.echoTask Sample.background)
  = Some (zeroResult, Some (Errorf "exec: no such file")).
Proof.
  apply (X5_start_error
           (mkWorld 100 1 1 [] (fun _ => false) (fun _ => StatOk)
              (Some (Errorf "exec: no such file")) Sample.echoChild
              (mkWriter [] None) (mkWriter [] None))
           Sample.echoTask Sample.background); reflexivity.
Defined.



(** X7: a child that ends on its own while the context is still live
    at the last read of [ctx.Err()] yields a nil error and no flag,
    also when its exit status is not zero: a failing command shows in
    [ExitCode] only. *)
Theorem X7_failure_is_not_an_error (w : World) (et : ExecTask) (ctx : Context)
    (off : nat) (st : WaitStatus) :
  started w et ctx →
  c_exit (w_child w) = Some (off, st) →
  ctx_Err (deadlineCtx w et ctx) (w_now w + off + w_lag1 w + w_lag2 w) = None →
  ∃ r, o_ret (Execute w et ctx) = Some (r, None)
       ∧ ExitCode r = ProcessState_ExitCode st
       ∧ Timedout r = false
       ∧ Cancelled r = false.
Proof.
  intros [Hlive Hok] Hexit Hlast.
  assert (Hearlier : ∀ t, t ≤ w_now w + off + w_lag1 w + w_lag2 w →
            ctx_Err (deadlineCtx w et ctx) t = None).
  { intros t Ht. destruct (ctx_Err (deadlineCtx w et ctx) t) as [e|] eqn:He; [|done].
    rewrite (ctx_Err_sticky _ _ _ _ He Ht) in Hlast. discriminate. }
  assert (Hfirst : ∀ te k, deadlineCtx w et ctx = Some (te, k) → w_now w + off ≤ te).
  { intros te k Hctx. rewrite Hctx in Hlast. unfold ctx_Err in Hlast.
    destruct (Nat.leb_spec te (w_now w + off + w_lag1 w + w_lag2 w)); [done|lia]. }
  pose proof (processEnd_natural w et ctx off st Hexit Hfirst) as Hend.
  unfold Execute. rewrite Hlive, Hok.
  destruct (copyStream (stdoutWriters w et) (c_stdout (w_child w))) as [outs outErr].
  destruct (copyStream (stderrWriters w et) (c_stderr (w_child w))) as [errs errErr].
  rewrite Hend. cbv zeta. simpl o_ret.
  rewrite !Hearlier by lia.
  eexists. split; [reflexivity|]. simpl.
  split; [apply exitCode_of_Wait|done].
Qed.

Lemma X7_failure_is_not_an_error_witness :
  ∃ r, o_ret (Execute (Sample.world (mkChild (Some (5, Exited 3)) [] [])) Sample.echoTask
                Sample.background) = Some (r, None)
       ∧ ExitCode r = 3%Z
       ∧ Timedout r = false
       ∧ Cancelled r = false.
Proof.
  apply (X7_failure_is_not_an_error (Sample.world (mkChild (Some (5, Exited 3)) [] []))
           Sample.echoTask Sample.background 5 (Exited 3)).
  - by split.
  - reflexivity.
  - reflexivity.
Defined.





(** X10: whenever the child is killed the result says so: the exit
    code is [-1], exactly one of [Timedout] and [Cancelled] is set, the
    error returned is the matching context error, and a command had
    been started. *)
Theorem X10_kill_is_reported (w : World) (et : ExecTask) (ctx : Context) :
  EvKill ∈ o_trace (Execute w et ctx) →
  ∃ r e, o_ret (Execute w et ctx) = Some (r, Some e)
         ∧ ExitCode r = (-1)%Z
         ∧ ((Timedout r = true ∧ Cancelled r = false ∧ e = DeadlineExceeded)
            ∨ (Timedout r = false ∧ Cancelled r = true ∧ e = Canceled))
         ∧ EvStart (buildCmd w et) ∈ o_trace (Execute w et ctx).
Proof.
  intros Hkill.
  assert (Hstarted : EvStart (buildCmd w et) ∈ o_trace (Execute w et ctx)).
  { revert Hkill. execute_paths w et ctx; try destruct killed;
      destruct (PrintCommand et); trace_solver. }
  revert Hkill Hstarted. execute_paths w et ctx.
  - destruct (PrintCommand et); trace_solver.
  - destruct (PrintCommand et); trace_solver.
  - destruct killed; [|destruct (PrintCommand et); trace_solver].
    intros _ Hstarted.
    apply processEnd_killed in Hend as [-> [k Hctx]].
    assert (Hdone : ∀ t, execEnd ≤ t →
              ctx_Err (deadlineCtx w et ctx) t = Some (Cause_error k)).
    { intros t Ht. rewrite Hctx. unfold ctx_Err.
      destruct (Nat.leb_spec execEnd t); [done|lia]. }
    rewrite !Hdone by lia.
    do 2 eexists. split; [reflexivity|]. simpl.
    split; [reflexivity|]. split; [|done].
    destruct k; simpl; [right|left]; done.
  - intros Hkill. exfalso. revert Hkill. destruct (PrintCommand et); trace_solver.
Qed.

Lemma X10_kill_is_reported_witness :
  ∃ r e, o_ret (Execute (Sample.world Sample.sleepChild) Sample.timeoutTask
                  Sample.background) = Some (r, Some e)
         ∧ ExitCode r = (-1)%Z
         ∧ ((Timedout r = true ∧ Cancelled r = false ∧ e = DeadlineExceeded)
            ∨ (Timedout r = false ∧ Cancelled r = true ∧ e = Canceled))
         ∧ EvStart (buildCmd (Sample.world Sample.sleepChild) Sample.timeoutTask)
           ∈ o_trace (Execute (Sample.world Sample.sleepChild) Sample.timeoutTask
                        Sample.background).
Proof.
  apply (X10_kill_is_reported (Sample.world Sample.sleepChild) Sample.timeoutTask
           Sample.background).
  vm_compute. repeat constructor.
Defined.

(** ** Printing the command *)


(** ** What the result carries of the streams *)

Section Destinations.
Variables (w : World) (et : ExecTask).

Lemma stdoutWriters_buffer :
  DisableStdioBuffer et = false → destOf DBuffer (stdoutWriters w et) = Some emptyBuffer.
Proof.
  intros Hon. unfold stdoutWriters. rewrite Hon.
  destruct (OutputFile et), (StreamStdio et), (StdOutWriter et); reflexivity.
Qed.

Lemma stderrWriters_buffer :
  DisableStdioBuffer et = false → destOf DBuffer (stderrWriters w et) = Some emptyBuffer.
Proof.
  intros Hon. unfold stderrWriters. rewrite Hon.
  destruct (ErrorFile et), (StreamStdio et), (StdErrWriter et); reflexivity.
Qed.

(** What was written to a buffer that started empty is its text. *)
Lemma bufferOf_received (got : list byte) (ds ds' : list Dest) :
  destOf DBuffer ds = Some emptyBuffer →
  Forall2 (received got) ds ds' →
  Buffer_String (bufferOf ds') = string_of_list_byte got.
Proof.
  intros Hbuf Hall.
  destruct (destOf_Forall2 _ DBuffer _ _ (received_kind _) Hall _ Hbuf)
    as (d & d' & [_ Hdata] & Hd & Hfind).
  unfold bufferOf, Buffer_String. rewrite Hfind. simpl. by rewrite Hdata, Hd.
Qed.

End Destinations.

(** X12: with buffering on, when the child was created and [Execute]
    returns, the [Stdout] of the result is exactly the bytes the child
    wrote to stdout, in order, provided the copy of stdout met no write
    error; likewise [Stderr]. *)
Theorem X12_buffered_capture (w : World) (et : ExecTask) (ctx : Context)
    (r : ExecResult) (err : option error) :
  DisableStdioBuffer et = false →
  started w et ctx →
  o_ret (Execute w et ctx) = Some (r, err) →
  (o_stdout_err (Execute w et ctx) = None →
   Stdout r = string_of_list_byte (streamBytes (c_stdout (w_child w))))
  ∧ (o_stderr_err (Execute w et ctx) = None →
     Stderr r = string_of_list_byte (streamBytes (c_stderr (w_child w)))).
Proof.
  intros Hon [Hlive Hok]. execute_paths w et ctx; try congruence.
  intros [= <- <-]. simpl.
  apply copyStream_spec in Hout as [Hout _]. apply copyStream_spec in Herr as [Herr _].
  split; intros ->.
  - eapply bufferOf_received; [by apply stdoutWriters_buffer|by apply Hout].
  - eapply bufferOf_received; [by apply stderrWriters_buffer|by apply Herr].
Qed.

Lemma X12_buffered_capture_witness :
  Stdout (mkExecResult "hello" "" 0 false false 5) = string_of_list_byte Sample.hello.
Proof.
  destruct (X12_buffered_capture (Sample.world Sample.echoChild) Sample.echoTask
              Sample.background (mkExecResult "hello" "" 0 false false 5) None)
    as [Hout _].
  - reflexivity.
  - by split.
  - reflexivity.
  - rewrite Hout; reflexivity.
Defined.

(** X13: the four destinations of a stream are enabled independently
    of each other (the raw file when one is given, the buffer unless
    buffering is disabled, the process's own stream when streaming is
    on, the caller's sink when one is given), each at most once, and
    they are always written in that order. *)
Theorem X13_destinations_independent (w : World) (et : ExecTask) :
  (destOf DFile (stdoutWriters w et) = OutputFile et
   ∧ destOf DBuffer (stdoutWriters w et)
     = (if DisableStdioBuffer et then None else Some emptyBuffer)
   ∧ destOf DStdio (stdoutWriters w et)
     = (if StreamStdio et then Some (w_stdout w) else None)
   ∧ destOf DSink (stdoutWriters w et) = StdOutWriter et
   ∧ d_kind <$> stdoutWriters w et `sublist_of` [DFile; DBuffer; DStdio; DSink])
  ∧ (destOf DFile (stderrWriters w et) = ErrorFile et
     ∧ destOf DBuffer (stderrWriters w et)
       = (if DisableStdioBuffer et then None else Some emptyBuffer)
     ∧ destOf DStdio (stderrWriters w et)
       = (if StreamStdio et then Some (w_stderr w) else None)
     ∧ destOf DSink (stderrWriters w et) = StdErrWriter et
     ∧ d_kind <$> stderrWriters w et `sublist_of` [DFile; DBuffer; DStdio; DSink]).
Proof.
  unfold stdoutWriters, stderrWriters.
  destruct (OutputFile et), (ErrorFile et), (DisableStdioBuffer et), (StreamStdio et),
    (StdOutWriter et), (StdErrWriter et); simpl;
    repeat split;
    solve [repeat (first [apply sublist_nil | apply sublist_skip | apply sublist_cons])].
Qed.

(** ** Overrides and names *)

Lemma envKey_entry (key value : string) :
  isName key = true → envKey (entry key value) = key.
Proof.
  induction key as [|c key IH]; intros Hname.
  - change (entry "" value) with (String "=" value). by rewrite envKey_cons.
  - simpl in Hname. apply andb_true_iff in Hname as [Hc Hkey].
    change (entry (String c key) value) with (String c (entry key value)).
    rewrite envKey_cons. apply negb_true_iff in Hc. rewrite Hc.
    by rewrite IH.
Qed.

(** The key of an entry never contains ["="]. *)
Lemma envKey_isName (env : string) : isName (envKey env) = true.
Proof.
  induction env as [|c rest IH]; [reflexivity|].
  rewrite envKey_cons. destruct (Ascii.eqb c "=") eqn:Hc; [reflexivity|].
  simpl. by rewrite Hc, IH.
Qed.

(** X14: an override [KEY=VALUE] masks every ambient value of [KEY]:
    in the environment list of the command, an entry [KEY=...] can only
    sit among the overrides, never in the inherited part that follows
    them. *)
Theorem X14_override_masks_ambient (w : World) (et : ExecTask)
    (key value : string) (cenv : list string) :
  isName key = true →
  entry key value ∈ Env et →
  cmd_Env (buildCmd w et) = Some cenv →
  ∀ i value', cenv !! i = Some (entry key value') → i < length (Env et).
Proof.
  intros Hname Hin Hcmd i value' Hi.
  assert (Hne : Env et ≠ []) by (intros Hnil; rewrite Hnil in Hin; by apply elem_of_nil in Hin).
  rewrite buildCmd_Env, resolveEnv_overrides in Hcmd by done.
  injection Hcmd as <-.
  destruct (Nat.lt_ge_cases i (length (Env et))) as [Hlt|Hge]; [done|].
  rewrite lookup_app_r in Hi by done.
  apply list_elem_of_lookup_2 in Hi. unfold inherited in Hi.
  apply list_elem_of_filter in Hi as [Hkey _]. exfalso. apply Hkey.
  rewrite envKey_entry by done. unfold envKeys.
  apply list_elem_of_fmap. exists (entry key value). by rewrite envKey_entry.
Qed.

Lemma X14_override_masks_ambient_witness :
  ["FOO=override"; "BAR=1"; "PATH=/bin"; "HOME=/root"] !! 0 = Some (entry "FOO" "override")
  ∧ 0 < length (Env Sample.envTask).
Proof.
  split; [reflexivity|].
  apply (X14_override_masks_ambient (Sample.world Sample.echoChild) Sample.envTask
           "FOO" "override" ["FOO=override"; "BAR=1"; "PATH=/bin"; "HOME=/root"])
    with (value' := "override").
  - reflexivity.
  - apply elem_of_cons. by left.
  - reflexivity.
  - reflexivity.
Defined.

(** ** The order of the fan-out under failure *)

Section FanOutOrder.

Lemma gotBy_received (got : list byte) (d d' : Dest) :
  received got d d' → gotBy d d' = got.
Proof. intros [_ Hdata]. unfold gotBy. rewrite Hdata. apply drop_app_length. Qed.

Lemma gotBy_same (d : Dest) : gotBy d d = [].
Proof. apply gotBy_received, received_nil. Qed.

Lemma fanoutOrdered_same (ds : list Dest) : fanoutOrdered ds ds.
Proof.
  intros i j di dj di' dj' _ Hi Hj Hi' Hj'.
  assert (dj' = dj) as -> by congruence. rewrite gotBy_same. apply prefix_nil.
Qed.

(** The head took [got]; every other destination took a first part of
    [got], in order among themselves. *)
Lemma fanoutOrdered_cons (got : list byte) (d d' : Dest) (ds ds' : list Dest) :
  received got d d' →
  Forall2 (receivedPrefix got) ds ds' →
  fanoutOrdered ds ds' →
  fanoutOrdered (d :: ds) (d' :: ds').
Proof.
  intros Hd Hpre Hord i j di dj di' dj' Hle Hi Hj Hi' Hj'.
  destruct i as [|i], j as [|j]; simpl in *; [| |lia|].
  - assert (dj = di) as -> by congruence. by assert (dj' = di') as -> by congruence.
  - injection Hi as <-. injection Hi' as <-.
    destruct (Forall2_lookup_lr _ _ _ _ _ _ Hpre Hj Hj') as (q & Hq & Hgot).
    by rewrite (gotBy_received _ _ _ Hd), (gotBy_received _ _ _ Hgot).
  - apply (Hord i j di dj di' dj'); [lia|done..].
Qed.

Lemma multiWrite_ordered (p : list byte) (ws : list Dest) :
  ∀ ws' n err, multiWrite ws p = (ws', n, err) → fanoutOrdered ws ws'.
Proof.
  induction ws as [|d rest IH]; intros ws' n err; simpl.
  - intros [= <- <- <-]. apply fanoutOrdered_same.
  - destruct (Write (d_writer d) p) as [[wr' m] werr] eqn:HW.
    destruct (Write_spec _ _ _ _ _ HW) as [Hfull (got & Hpre & Hgot)].
    assert (Hstop : fanoutOrdered (d :: rest) (mkDest (d_kind d) wr' :: rest)).
    { apply (fanoutOrdered_cons got); [by split| |apply fanoutOrdered_same].
      eapply Forall2_impl; [apply Forall2_received_nil|].
      intros d0 d1 Hd. exists []. split; [apply prefix_nil|done]. }
    destruct werr as [e|]; [by intros [= <- <- <-]|].
    destruct (Hfull eq_refl) as [-> Hdata]. rewrite Nat.eqb_refl.
    destruct (multiWrite rest p) as [[rest' n'] err'] eqn:HM.
    destruct (multiWrite_spec _ _ _ _ _ HM) as [_ Hrest].
    intros [= <- <- <-].
    apply (fanoutOrdered_cons p); [by split|done|by eapply IH].
Qed.

(** After a chunk that every destination took whole, the order is
    kept by whatever follows. *)
Lemma fanoutOrdered_after (p stream : list byte) (ds0 ds1 ds2 : list Dest) :
  Forall2 (received p) ds0 ds1 →
  Forall2 (receivedPrefix stream) ds1 ds2 →
  fanoutOrdered ds1 ds2 →
  fanoutOrdered ds0 ds2.
Proof.
  intros H01 H12 Hord i j di dj di' dj' Hle Hi Hj Hi' Hj'.
  destruct (Forall2_lookup_l _ _ _ _ _ H01 Hi) as (mi & Hmi & Hpi).
  destruct (Forall2_lookup_l _ _ _ _ _ H01 Hj) as (mj & Hmj & Hpj).
  destruct (Forall2_lookup_lr _ _ _ _ _ _ H12 Hmi Hi') as (gi & _ & Hgi).
  destruct (Forall2_lookup_lr _ _ _ _ _ _ H12 Hmj Hj') as (gj & _ & Hgj).
  pose proof (Hord i j mi mj di' dj' Hle Hmi Hmj Hi' Hj') as Hpre.
  rewrite (gotBy_received _ _ _ Hgi), (gotBy_received _ _ _ Hgj) in Hpre.
  rewrite (gotBy_received _ _ _ (received_app _ _ _ _ _ Hpi Hgi)).
  rewrite (gotBy_received _ _ _ (received_app _ _ _ _ _ Hpj Hgj)).
  by apply prefix_app.
Qed.

Lemma copyStream_ordered (chunks : list (list byte)) :
  ∀ ws ws' err, copyStream ws chunks = (ws', err) → fanoutOrdered ws ws'.
Proof.
  induction chunks as [|p rest IH]; intros ws ws' err; simpl.
  - intros [= <- <-]. apply fanoutOrdered_same.
  - destruct (multiWrite ws p) as [[ws1 n] merr] eqn:HM.
    pose proof (multiWrite_ordered _ _ _ _ _ HM) as Hord.
    destruct (multiWrite_spec _ _ _ _ _ HM) as [Hfull _].
    destruct merr as [e|]; [by intros [= <- <-]|].
    destruct (Hfull eq_refl) as [-> Hall]. rewrite Nat.eqb_refl.
    intros Hcopy. destruct (copyStream_spec _ _ _ _ Hcopy) as [_ Hpre].
    eapply fanoutOrdered_after; eauto.
Qed.

End FanOutOrder.

(** X15: the fan-out keeps its order also when writes fail: once the
    child runs, of two destinations of a stream the later one (in the
    order raw file, buffer, process stream, caller's sink) never took
    more of the stream than the earlier one; what it took is a first
    part of what the earlier one took. *)
Theorem X15_fanout_ordered (w : World) (et : ExecTask) (ctx : Context) :
  started w et ctx →
  fanoutOrdered (stdoutWriters w et) (o_stdout (Execute w et ctx))
  ∧ fanoutOrdered (stderrWriters w et) (o_stderr (Execute w et ctx)).
Proof.
  intros Hrun. destruct (Execute_started_streams w et ctx Hrun) as [Hout Herr].
  symmetry in Hout, Herr. split; by eapply copyStream_ordered.
Qed.

Lemma X15_fanout_ordered_witness :
  fanoutOrdered
    [mkDest DFile (mkWriter [] (Some 2)); mkDest DBuffer emptyBuffer]
    (o_stdout (Execute (Sample.world Sample.echoChild)
                 (mkExecTask "echo" ["hello"] false [] "" None false false false None None 0
                    (Some (mkWriter [] (Some 2))) None)
                 Sample.background)).
Proof.
  apply (X15_fanout_ordered (Sample.world Sample.echoChild)
           (mkExecTask "echo" ["hello"] false [] "" None false false false None None 0
              (Some (mkWriter [] (Some 2))) None)
           Sample.background).
  by split.
Defined.

(** ** Flags, errors and the caller's context *)



(** X17: under a context that is already cancelled at the call,
    [Execute] returns at once with [ExitCode = -1], [Cancelled = true],
    [Timedout = false] and [context.Canceled], whatever the task's
    timeout; the command line is still printed when [PrintCommand] is
    on, since printing comes before the check, and nothing else
    happens: no command is started and no destination is set up. *)
Theorem X17_cancelled_before_start (w : World) (et : ExecTask) (ctx : Context) :
  ctx_Err ctx (w_now w) = Some Canceled →
  Execute w et ctx
  = mkOutcome
      (Some (mkExecResult "" "" (-1) false true 0, Some Canceled))
      (EvExecute et
       :: (if PrintCommand et
           then [EvPrint (Println3 "exec: " (Command et) (GoStrings.Join (Args et) " "))]
           else []))
      [] [] None None.
Proof.
  intros Hdone. apply (deadlineCtx_expired w et) in Hdone.
  assert (Hjoin : (if 0 <? length (Args et) then GoStrings.Join (Args et) " " else "")
                  = GoStrings.Join (Args et) " ")
    by (by destruct (Args et)).
  unfold Execute. rewrite Hdone, Hjoin. cbv zeta.
  by destruct (PrintCommand et).
Qed.

Lemma X17_cancelled_before_start_witness :
  o_ret (Execute (Sample.world Sample.echoChild) Sample.timeoutTask Sample.cancelledBefore)
  = Some (mkExecResult "" "" (-1) false true 0, Some Canceled).
Proof.
  rewrite (X17_cancelled_before_start (Sample.world Sample.echoChild) Sample.timeoutTask
             Sample.cancelledBefore); reflexivity.
Defined.

(** X18: in every result a set flag comes with the matching error:
    [Timedout] with [context.DeadlineExceeded], [Cancelled] with
    [context.Canceled]; so a nil error means that neither flag is set.
    This holds although the flags and the error are separate reads of
    [ctx.Err()]. *)
Theorem X18_flag_implies_error (w : World) (et : ExecTask) (ctx : Context)
    (r : ExecResult) (err : option error) :
  o_ret (Execute w et ctx) = Some (r, err) →
  (Timedout r = true → err = Some DeadlineExceeded)
  ∧ (Cancelled r = true → err = Some Canceled)
  ∧ (err = None → Timedout r = false ∧ Cancelled r = false).
Proof.
  intros Hret.
  assert (Hflags : (Timedout r = true → err = Some DeadlineExceeded)
                   ∧ (Cancelled r = true → err = Some Canceled)).
  { revert Hret. execute_paths w et ctx; intros [= <- <-]; simpl.
    - split; [done|]. intros Hc. by apply bool_decide_eq_true in Hc as ->.
    - done.
    - split; intros Hflag; apply bool_decide_eq_true in Hflag;
        eapply ctx_Err_sticky; eauto; lia. }
  destruct Hflags as [Ht Hc]. split; [done|]. split; [done|].
  intros ->. split.
  - destruct (Timedout r); [by specialize (Ht eq_refl)|done].
  - destruct (Cancelled r); [by specialize (Hc eq_refl)|done].
Qed.

Lemma X18_flag_implies_error_witness :
  (true = true → Some DeadlineExceeded = Some DeadlineExceeded)
  ∧ (false = true → Some DeadlineExceeded = Some Canceled)
  ∧ (Some DeadlineExceeded = None → true = false ∧ false = false).
Proof.
  apply (X18_flag_implies_error (Sample.world Sample.sleepChild) Sample.timeoutTask
           Sample.background (mkExecResult "" "" (-1) true false 10)
           (Some DeadlineExceeded)).
  reflexivity.
Defined.
